(** * SermoDigital/email: a shallow embedding of [email.go]

    The development follows the source file: the byte and error
    vocabulary, the [io] interfaces the package is written against, the
    chunked-line writer, the readers under the decoder and the trim reader,
    header sets and messages, the Message-Id generator and the header
    assembler, the encoder ([WriteTo]) and the decoder ([NewWithSize]).

    Go values are modelled as the code has them: a byte slice is a
    [list byte], a Go [int] is a [Z] with its 64-bit wrap-around written
    out, a [textproto.MIMEHeader] is a [gmap string (list string)] (a nil
    slice is the empty list, a nil map is [None]), a writer or reader is a
    state that each call returns anew.  What the package takes from the
    standard library and cannot compute itself (the clock, SHA-256, the
    MIME parsers, the content-type lookups, opening a file) is an argument
    of the definitions that use it.

    Theorems come after all definitions. *)

From Stdlib Require Import ZArith Lia Strings.Byte Strings.String Strings.Ascii.
From stdpp Require Import gmap strings list fin_maps.

Local Open Scope Z_scope.

(** ** Bytes, strings, integers, errors *)

#[global] Instance byte_eq_dec : EqDecision byte := Byte.byte_eq_dec.

(** [[]byte(s)] *)
Definition bytes_of (s : string) : list byte := list_byte_of_string s.

(** [len(p)] as a Go [int]. *)
Definition len {A} (p : list A) : Z := Z.of_nat (length p).

(** Go's [int] and [int64] are 64 bits wide on the platforms the package
    targets; arithmetic wraps around. *)
Definition wrap64 (z : Z) : Z := (z + 2 ^ 63) mod 2 ^ 64 - 2 ^ 63.

Definition CR : byte := x0d.
Definition LF : byte := x0a.

(** Error values.  Go compares errors by identity; every error the package
    creates gets a constructor, errors of the standard library or of a
    caller-supplied reader or writer are [ErrLib]. *)
Inductive error : Type :=
| ErrMissingBoundary
| ErrMissingContentType
| errClosed
| errFromEmpty           (* errors.New("email: 'From' field cannot be empty") *)
| EOF                    (* io.EOF *)
| ErrLib (msg : string).

#[global] Instance error_eq_dec : EqDecision error.
Proof. solve_decision. Defined.

(** What a call does: it returns, it panics (a slice bound out of range),
    or the model's fuel ran out before it returned. *)
Inductive outcome (A : Type) : Type :=
| Returns (a : A)
| Panics
| OutOfFuel.
Arguments Returns {A} a.
Arguments Panics {A}.
Arguments OutOfFuel {A}.

(** [io.ErrShortWrite] and [io.errInvalidWrite]. *)
Definition ErrShortWrite : error := ErrLib "short write".
Definition errInvalidWrite : error := ErrLib "invalid write result".

(** ** Constants (email.go, lines 25-46) *)

Definition maxLineLength : Z := 76.
Definition lineEnding : string := String "013" (String "010" EmptyString).

Definition contentDispo : string := "Content-Disposition".
Definition contentID : string := "Content-ID".
Definition contentXferEncoding : string := "Content-Transfer-Encoding".
Definition contentType : string := "Content-Type".

Definition to : string := "To".
Definition cc : string := "Cc".
Definition bcc : string := "Bcc".
Definition from : string := "From".
Definition subject : string := "Subject".
Definition date : string := "Date".
Definition msgID : string := "Message-Id".
Definition mimeVers : string := "Mime-Version".

Definition defaultContentType : string := "text/plain; charset=us-ascii".

(** ** The [io] interfaces *)

Module io.

(** [io.Writer].  [Write w p] is the writer after the call, the count and
    the error the call returned.  [WriteString w s] is what
    [io.WriteString(w, s)] does: the writer's own [WriteString] method
    when its type has one, [w.Write([]byte(s))] otherwise. *)
Class Writer (W : Type) : Type := {
  Write : W → list byte → W * (Z * option error);
  WriteString : W → string → W * (Z * option error)
}.

(** [io.Reader].  [Read r n] is a call [r.Read(buf)] with [len(buf) = n]:
    the reader after the call, the bytes [buf[:k]] it delivered and the
    error it returned. *)
Class Reader (R : Type) : Type := {
  Read : R → nat → R * (list byte * option error)
}.

End io.

(** [bytes.Buffer] as a sink: every write is appended and succeeds. *)
Definition Buffer : Type := list byte.

#[global] Instance Buffer_Writer : io.Writer Buffer := {|
  io.Write b p := (b ++ p, (len p, None));
  io.WriteString b s := (b ++ bytes_of s, (len (bytes_of s), None))
|}.

(** ** chunkWriter (email.go, lines 436-483) *)

Module chunkWriter.

Record t (W : Type) : Type := mk { w : W; n : Z; err : option error }.
Arguments mk {W}.
Arguments w {W}.
Arguments n {W}.
Arguments err {W}.

Section Methods.
Context {W : Type} `{!io.Writer W}.

(** The [for len(p) != 0] loop of [Write].  [cnt] is the named result
    [n].  Every iteration in which the underlying writer honours the
    [io.Writer] contract consumes at least one byte, so [length p]
    iterations are always enough. *)
Fixpoint Write_loop (fuel : nat) (c : t W) (p : list byte) (cnt : Z)
  : outcome (t W * (Z * option error)) :=
  match p with
  | [] => Returns (c, (cnt, None))
  | _ :: _ =>
    match fuel with
    | O => OutOfFuel
    | S fuel =>
      let m := wrap64 (maxLineLength - n c) in
      let m := if m =? 0 then maxLineLength else m in
      let m := if m >? len p then len p else m in
      if m <? 0 then Panics (* p[:m] *) else
      let '(w1, (m, e)) := io.Write (w c) (take (Z.to_nat m) p) in
      let cnt := wrap64 (cnt + m) in
      let c := mk w1 (wrap64 (n c + m)) (err c) in
      match e with
      | Some e => Returns (c, (cnt, Some e))
      | None =>
        let flush :=
          if n c =? maxLineLength then
            let '(w2, (_, e)) := io.WriteString (w c) lineEnding in
            match e with
            | Some e => inl (mk w2 (n c) (err c), e)
            | None => inr (mk w2 0 (err c))
            end
          else inr c in
        match flush with
        | inl (c, e) => Returns (c, (cnt, Some e))
        | inr c =>
          if (m <? 0) || (len p <? m) then Panics (* p[m:] *)
          else Write_loop fuel c (drop (Z.to_nat m) p) cnt
        end
      end
    end
  end.

Definition Write (c : t W) (p : list byte)
  : outcome (t W * (Z * option error)) :=
  match err c with
  | Some e => Returns (c, (0, Some e))
  | None => Write_loop (length p) c p 0
  end.

Definition Close (c : t W) : t W * option error :=
  match err c with
  | Some e => (c, Some e)
  | None =>
    let c := mk (w c) (n c) (Some errClosed) in
    let '(w1, (_, e)) := io.WriteString (w c) lineEnding in
    (mk w1 (n c) (err c), e)
  end.

(** A caller that issues the writes [ps] one after the other, stopping
    at the first call that does not return or returns an error. *)
Fixpoint WriteAll (c : t W) (ps : list (list byte))
  : outcome (t W * option error) :=
  match ps with
  | [] => Returns (c, None)
  | p :: ps =>
    match Write c p with
    | Returns (c, (_, None)) => WriteAll c ps
    | Returns (c, (_, Some e)) => Returns (c, Some e)
    | Panics => Panics
    | OutOfFuel => OutOfFuel
    end
  end.

End Methods.

(** [chunkWriter{w: w}] *)
Definition new {W} (w0 : W) : t W := mk w0 0 None.

End chunkWriter.

(** *** What the chunked output looks like

    [chunked k p] is the payload [p] with a CRLF after every byte that
    fills a line, [k] bytes of the current line being already out. *)
Fixpoint chunked (k : nat) (p : list byte) : list byte :=
  match p with
  | [] => []
  | b :: p =>
    if decide (S k = 76%nat) then b :: CR :: LF :: chunked 0 p
    else b :: chunked (S k) p
  end.

(** The lines of a byte sequence, split at every CRLF as
    [bytes.Split(out, "\r\n")] does; [cur] is the current line, reversed. *)
Fixpoint splitCRLF_from (cur : list byte) (l : list byte) : list (list byte) :=
  match l with
  | [] => [rev cur]
  | b :: t =>
    match t with
    | b' :: t' =>
      if decide (b = CR ∧ b' = LF) then rev cur :: splitCRLF_from [] t'
      else splitCRLF_from (b :: cur) t
    | [] => [rev (b :: cur)]
    end
  end.

Definition splitCRLF (l : list byte) : list (list byte) := splitCRLF_from [] l.

(** Removing every CRLF pair, as [bytes.Replace(out, "\r\n", "", -1)]. *)
Fixpoint stripCRLF (out : list byte) : list byte :=
  match out with
  | [] => []
  | b :: t =>
    match t with
    | b' :: t' => if decide (b = CR ∧ b' = LF) then stripCRLF t' else b :: stripCRLF t
    | [] => [b]
    end
  end.

(** ** Readers the decoder is built from *)

(** [bytes.Reader] (and [strings.Reader]): the state is what is left to
    read. *)
Module bytesReader.

Definition t : Type := list byte.

Definition Read (r : t) (n : nat) : t * (list byte * option error) :=
  match r with
  | [] => (r, ([], Some EOF))
  | _ :: _ => (drop n r, (take n r, None))
  end.

#[global] Instance Reader : io.Reader t := {| io.Read := Read |}.

End bytesReader.

(** A reader given by the chunks its successive [Read] calls deliver, as a
    network connection or a pipe does; a chunk longer than the caller's
    buffer is delivered over several calls. *)
Module chunkReader.

Definition t : Type := list (list byte).

Definition Read (r : t) (n : nat) : t * (list byte * option error) :=
  match r with
  | [] => (r, ([], Some EOF))
  | c :: r' =>
    if decide (length c ≤ n)%nat then (r', (c, None))
    else (drop n c :: r', (take n c, None))
  end.

#[global] Instance Reader : io.Reader t := {| io.Read := Read |}.

End chunkReader.

(** [io.LimitedReader], as returned by [io.LimitReader(r, n)]. *)
Module LimitedReader.

Record t (R : Type) : Type := mk { R_ : R; N : Z }.
Arguments mk {R}.
Arguments R_ {R}.
Arguments N {R}.

Definition Read {R} `{!io.Reader R} (l : t R) (n : nat)
  : t R * (list byte * option error) :=
  if N l <=? 0 then (l, ([], Some EOF))
  else
    let n := if Z.of_nat n >? N l then Z.to_nat (N l) else n in
    let '(r, (data, e)) := io.Read (R_ l) n in
    (mk r (wrap64 (N l - len data)), (data, e)).

#[global] Instance Reader {R} `{!io.Reader R} : io.Reader (t R) :=
  {| io.Read := Read |}.

End LimitedReader.

Definition LimitReader {R} (r : R) (n : Z) : LimitedReader.t R :=
  LimitedReader.mk r n.

(** *** [unicode/utf8] and [unicode.IsSpace], as far as [bytes.TrimLeftFunc]
    uses them *)

Module utf8.

Definition RuneError : Z := 65533.   (* U+FFFD *)
Definition RuneSelf : Z := 128.

Definition byteZ (b : byte) : Z := Z.of_N (Byte.to_N b).

(** A continuation byte within [lo, hi]. *)
Definition within (lo hi : Z) (b : byte) : bool :=
  (lo <=? byteZ b) && (byteZ b <=? hi).

(** [utf8.DecodeRune]: the first rune of [p] and its width in bytes;
    ([RuneError], 1) for an encoding that is not valid UTF-8. *)
Definition DecodeRune (p : list byte) : Z * nat :=
  match p with
  | [] => (RuneError, 0%nat)
  | p0 :: rest =>
    let x := byteZ p0 in
    if x <? 128 then (x, 1%nat)
    else if (x <? 194) || (244 <? x) then (RuneError, 1%nat)
    else
      (* size and the range accepted for the second byte *)
      let '(sz, lo, hi) :=
        if x <? 224 then (2%nat, 128, 191)
        else if x =? 224 then (3%nat, 160, 191)
        else if x =? 237 then (3%nat, 128, 159)
        else if x <? 240 then (3%nat, 128, 191)
        else if x =? 240 then (4%nat, 144, 191)
        else if x =? 244 then (4%nat, 128, 143)
        else (4%nat, 128, 191) in
      if (length p <? sz)%nat then (RuneError, 1%nat)
      else
        match rest with
        | b1 :: rest =>
          if negb (within lo hi b1) then (RuneError, 1%nat)
          else if (sz <=? 2)%nat then
            (Z.lor (Z.shiftl (Z.land x 31) 6) (Z.land (byteZ b1) 63), 2%nat)
          else
            match rest with
            | b2 :: rest =>
              if negb (within 128 191 b2) then (RuneError, 1%nat)
              else if (sz <=? 3)%nat then
                (Z.lor (Z.lor (Z.shiftl (Z.land x 15) 12)
                              (Z.shiftl (Z.land (byteZ b1) 63) 6))
                       (Z.land (byteZ b2) 63), 3%nat)
              else
                match rest with
                | b3 :: _ =>
                  if negb (within 128 191 b3) then (RuneError, 1%nat)
                  else
                    (Z.lor (Z.lor (Z.lor (Z.shiftl (Z.land x 7) 18)
                                         (Z.shiftl (Z.land (byteZ b1) 63) 12))
                                  (Z.shiftl (Z.land (byteZ b2) 63) 6))
                           (Z.land (byteZ b3) 63), 4%nat)
                | [] => (RuneError, 1%nat)
                end
            | [] => (RuneError, 1%nat)
            end
        | [] => (RuneError, 1%nat)
        end
  end.

End utf8.

Module unicode.

(** [unicode.IsSpace]: the Latin-1 spaces, then the [White_Space] range
    table. *)
Definition IsSpace (r : Z) : bool :=
  if (0 <=? r) && (r <=? 255) then
    (r =? 9) || (r =? 10) || (r =? 11) || (r =? 12) || (r =? 13)
    || (r =? 32) || (r =? 133) || (r =? 160)
  else
    (r =? 5760) || ((8192 <=? r) && (r <=? 8202)) || (r =? 8232)
    || (r =? 8233) || (r =? 8239) || (r =? 8287) || (r =? 12288).

End unicode.

(** [bytes.TrimLeftFunc(s, unicode.IsSpace)]: decode rune after rune and
    stop at the first one that is not a space.  [skip] counts the bytes of
    the current rune that are still to be passed over. *)
Fixpoint TrimLeftSpace_from (skip : nat) (s : list byte) : list byte :=
  match s with
  | [] => []
  | b :: t =>
    match skip with
    | S skip => TrimLeftSpace_from skip t
    | O =>
      let '(r, wid) :=
        if utf8.byteZ b <? utf8.RuneSelf then (utf8.byteZ b, 1%nat)
        else utf8.DecodeRune s in
      if unicode.IsSpace r then TrimLeftSpace_from (wid - 1) t else s
    end
  end.

Definition TrimLeftSpace (s : list byte) : list byte := TrimLeftSpace_from 0 s.

(** ** trimReader (email.go, lines 69-82) *)

Module trimReader.

Record t (R : Type) : Type := mk { rd : R }.
Arguments mk {R}.
Arguments rd {R}.

(** [n, err := tr.rd.Read(buf)], then the bytes read are trimmed on the
    left and copied to the front of [buf]. *)
Definition Read {R} `{!io.Reader R} (tr : t R) (n : nat)
  : t R * (list byte * option error) :=
  let '(r, (data, e)) := io.Read (rd tr) n in
  let t := TrimLeftSpace data in
  (mk r, (t, e)).

#[global] Instance Reader {R} `{!io.Reader R} : io.Reader (t R) :=
  {| io.Read := Read |}.

End trimReader.

(** What a consumer receives over a sequence of [Read] calls with buffers
    of the given sizes. *)
Fixpoint ReadCalls {R} `{!io.Reader R} (r : R) (sizes : list nat) : list byte :=
  match sizes with
  | [] => []
  | n :: sizes =>
    let '(r, (data, _)) := io.Read r n in
    data ++ ReadCalls r sizes
  end.

(** The same calls, one entry for each call. *)
Fixpoint ReadChunks {R} `{!io.Reader R} (r : R) (sizes : list nat)
  : list (list byte) :=
  match sizes with
  | [] => []
  | n :: sizes =>
    let '(r, (data, _)) := io.Read r n in
    data :: ReadChunks r sizes
  end.

(** ** Header sets and messages *)

(** [textproto.MIMEHeader] is [map[string][]string]. *)
Abbreviation MIMEHeader := (gmap string (list string)).

Module textproto.

(** [h[key]]: the zero value, a nil slice, for a key that is absent. *)
Definition index (h : MIMEHeader) (key : string) : list string :=
  default [] (h !! key).

(** [_, ok := h[key]] *)
Definition has (h : MIMEHeader) (key : string) : bool :=
  bool_decide (is_Some (h !! key)).

(** [h.Get(key)] and [h.Set(key, value)].  Both canonicalise [key]
    first; the package only passes the constants above, which are in
    canonical form already. *)
Definition Get (h : MIMEHeader) (key : string) : string :=
  match index h key with
  | [] => ""
  | v :: _ => v
  end.

Definition Set_ (h : MIMEHeader) (key value : string) : MIMEHeader :=
  <[key := [value]]> h.

End textproto.

(** An [io.ReadCloser] as [io.Copy] finds it: [reads] are the data of its
    successive [Read] calls, each handed to the destination in one [Write];
    [readErr] is the error that ends them, [None] for [io.EOF]. *)
Record ReadCloser : Type := mkReadCloser {
  reads : list (list byte);
  readErr : option error
}.

(** [Attachment] (email.go, lines 485-490).  [Body] is an interface value:
    [None] is nil. *)
Module Attachment.
Record t : Type := mk {
  Name : string;
  Header : MIMEHeader;
  Body : option ReadCloser
}.
End Attachment.

(** [Email] (email.go, lines 56-67).  [Headers] is a Go map and may be
    nil, which is [None]. *)
Module Email.
Record t : Type := mk {
  From : string;
  To : list string;
  CC : list string;
  BCC : list string;
  Subject : string;
  Text : list byte;
  HTML : list byte;
  Headers : option MIMEHeader;
  Attachments : list Attachment.t
}.

(** The zero value [Email{}]. *)
Definition zero : t := mk "" [] [] [] "" [] [] None [].

Definition set_Text (e : t) (b : list byte) : t :=
  mk (From e) (To e) (CC e) (BCC e) (Subject e) b (HTML e) (Headers e)
     (Attachments e).
Definition set_HTML (e : t) (b : list byte) : t :=
  mk (From e) (To e) (CC e) (BCC e) (Subject e) (Text e) b (Headers e)
     (Attachments e).
Definition set_Headers (e : t) (h : option MIMEHeader) : t :=
  mk (From e) (To e) (CC e) (BCC e) (Subject e) (Text e) (HTML e) h
     (Attachments e).
Definition set_Attachments (e : t) (a : list Attachment.t) : t :=
  mk (From e) (To e) (CC e) (BCC e) (Subject e) (Text e) (HTML e)
     (Headers e) a.
End Email.

(** [time.Time] as the number of nanoseconds since the zero time; only
    [Round] is computed here, formatting is left to the environment. *)
Module time.

Definition Time : Type := Z.
Definition Duration : Type := Z.
Definition Minute : Duration := 60 * 1000000000.

(** [t.Round(d)]: the nearest multiple of [d] since the zero time,
    halfway values rounding up; [t] itself when [d <= 0]. *)
Definition Round (t : Time) (d : Duration) : Time :=
  if d <=? 0 then t
  else
    let r := t mod d in
    if r + r <? d then t - r else t + (d - r).

Definition RFC3339 : string := "2006-01-02T15:04:05Z07:00".
Definition RFC1123Z : string := "Mon, 02 Jan 2006 15:04:05 -0700".

End time.

(** [fmt.Sprintf("%x", b)] of a byte slice: two lower-case hexadecimal
    digits per byte. *)
Definition hexdigit (v : N) : ascii :=
  nth (N.to_nat v) (list_ascii_of_string "0123456789abcdef") "0"%char.

Fixpoint hex (b : list byte) : string :=
  match b with
  | [] => ""
  | x :: b =>
    String (hexdigit (N.div (Byte.to_N x) 16))
           (String (hexdigit (N.modulo (Byte.to_N x) 16)) (hex b))
  end.

(** ** The environment of the encoder

    What the package takes from outside: the clock's formatting, the
    SHA-256 digest, the host name resolved at start-up, the encoders of
    [mime] and [mime/quotedprintable], and the random boundaries
    [multipart.NewWriter] draws. *)
Record Env : Type := {
  Format : time.Time → string → string;          (* t.Format(layout) *)
  sha256_Sum : list byte → list byte;            (* digest of the bytes written *)
  hostname : string;
  QEncode : string → string;                     (* mime.QEncoding.Encode("UTF-8", s) *)
  qpEncode : list byte → list byte;              (* quotedprintable writer: Write, Close *)
  mixedBoundary : string;                        (* boundary of [mw] *)
  altBoundary : string                           (* boundary of [sw] *)
}.

Section Encoder.

Context (env : Env).

(** *** messageID (email.go, lines 518-531) *)

Definition messageID (e : Email.t) (ts : time.Time) : string :=
  let h : list byte := [] in                               (* sha256.New() *)
  let h := h ++ bytes_of (Email.From e) in
  let h := h ++ bytes_of (Email.Subject e) in
  (* formatted into [buf]; [buf] is not written to [h] *)
  let buf := bytes_of (Format env (time.Round ts (5 * time.Minute)) time.RFC3339) in
  let h := h ++ Email.Text e in
  let h := h ++ Email.HTML e in
  "<" ++ hex (take 16 (drop 4 (sha256_Sum env h))) ++ "@" ++ hostname env ++ ">".

(** *** msgHeaders (email.go, lines 263-312)

    [now] is the value of [time.Now()]. *)
Definition msgHeaders (e : Email.t) (now : time.Time) : error + MIMEHeader :=
  let res : MIMEHeader := ∅ in
  let res :=
    match Email.Headers e with
    | Some hs =>
      foldl (λ res h, <[h := textproto.index hs h]> res) res
            [to; cc; from; subject; date; msgID]
    | None => res
    end in
  let res :=
    if negb (textproto.has res to) && (0 <? len (Email.To e))
    then textproto.Set_ res to (String.concat ", " (Email.To e)) else res in
  let res :=
    if negb (textproto.has res cc) && (0 <? len (Email.CC e))
    then textproto.Set_ res cc (String.concat ", " (Email.CC e)) else res in
  let res :=
    if negb (textproto.has res subject) && negb (bool_decide (Email.Subject e = ""))
    then textproto.Set_ res subject (Email.Subject e) else res in
  let res_or_err :=
    if negb (textproto.has res from) then
      if bool_decide (Email.From e = "") then inl errFromEmpty
      else inr (textproto.Set_ res from (Email.From e))
    else inr res in
  match res_or_err with
  | inl err => inl err
  | inr res =>
    let res :=
      if negb (textproto.has res date)
      then textproto.Set_ res date (Format env now time.RFC1123Z) else res in
    let res :=
      if negb (textproto.has res msgID)
      then textproto.Set_ res msgID (messageID e now) else res in
    let res :=
      if negb (textproto.has res mimeVers)
      then textproto.Set_ res mimeVers "1.0" else res in
    let res :=
      match Email.Headers e with
      | Some hs =>
        map_fold (λ field vals res,
                    if negb (textproto.has res field)
                    then <[field := vals]> res else res) res hs
      | None => res
      end in
    inr res
  end.

End Encoder.

(** ** countWriter (email.go, lines 327-341) *)

Module countWriter.

Record t (W : Type) : Type := mk { w : W; n : Z }.
Arguments mk {W}.
Arguments w {W}.
Arguments n {W}.

Section Methods.
Context {W : Type} `{!io.Writer W}.

Definition Write (c : t W) (p : list byte) : t W * (Z * option error) :=
  let '(w1, (k, e)) := io.Write (w c) p in
  (mk w1 (wrap64 (n c + k)), (k, e)).

Definition WriteString (c : t W) (p : string) : t W * (Z * option error) :=
  let '(w1, r) := io.WriteString (w c) p in
  (mk w1 (n c), r).

(** [*countWriter] has a [WriteString] method, which is therefore what
    [io.WriteString] calls on it. *)
#[global] Instance Writer : io.Writer (t W) :=
  {| io.Write := Write; io.WriteString := WriteString |}.

End Methods.

End countWriter.

(** ** [mime/multipart]'s writer, as far as the encoder uses it *)

Definition CRLF : string := lineEnding.

(** Insertion of a key into a list sorted by [String.leb]; [sort.Strings]
    orders the header fields of a part. *)
Fixpoint insert_sorted (kv : string * list string)
    (l : list (string * list string)) : list (string * list string) :=
  match l with
  | [] => [kv]
  | kv' :: l' =>
    if String.leb (fst kv) (fst kv') then kv :: l else kv' :: insert_sorted kv l'
  end.

Definition sorted_fields (h : MIMEHeader) : list (string * list string) :=
  foldr insert_sorted [] (map_to_list h).

Module multipart.

(** The part most recently created: whether the writer has finished it,
    and the first error a write to it met. *)
Record part : Type := mkPart { closed : bool; we : option error }.

Record Writer : Type := mk { boundary : string; lastpart : option part }.

Definition NewWriter (b : string) : Writer := mk b None.
Definition Boundary (mw : Writer) : string := boundary mw.

(** The lines ["k: v\r\n"] of a part header, fields in sorted order. *)
Definition header_lines (h : MIMEHeader) : string :=
  String.concat ""
    (flat_map (λ '(k, vs), (λ v, k ++ ": " ++ v ++ CRLF)%string <$> vs)
              (sorted_fields h)).

Section Methods.
Context {W : Type} `{!io.Writer W}.

(** [mw.CreatePart(header)] on the sink [w]: finish the previous
    part, then write the delimiter and the header in one [Write]. *)
Definition CreatePart (mw : Writer) (w : W) (header : MIMEHeader)
  : Writer * W * option error :=
  let '(lp, e) :=
    match lastpart mw with
    | Some p => (Some (mkPart true (we p)), we p)
    | None => (None, None)
    end in
  match e with
  | Some e => (mk (boundary mw) lp, w, Some e)
  | None =>
    let b :=
      ((match lp with
        | Some _ => CRLF ++ "--" ++ boundary mw ++ CRLF
        | None => "--" ++ boundary mw ++ CRLF
        end) ++ header_lines header ++ CRLF)%string in
    let '(w, (k, e)) := io.Write w (bytes_of b) in
    match e with
    | Some e => (mk (boundary mw) lp, w, Some e)
    | None =>
      if bool_decide (k = len (bytes_of b))
      then (mk (boundary mw) (Some (mkPart false None)), w, None)
      else (mk (boundary mw) lp, w, Some (ErrLib "short write"))
    end
  end.

(** [mw.Close()] *)
Definition Close (mw : Writer) (w : W) : Writer * W * option error :=
  let '(lp, e) :=
    match lastpart mw with
    | Some p => (Some (mkPart true (we p)), we p)
    | None => (None, None)
    end in
  match e with
  | Some e => (mk (boundary mw) lp, w, Some e)
  | None =>
    let '(w, (_, e)) :=
      io.Write w (bytes_of (CRLF ++ "--" ++ boundary mw ++ "--" ++ CRLF)%string) in
    (mk (boundary mw) None, w, e)
  end.

(** The [io.Writer] that [CreatePart] returns.  The part object is
    shared with the writer's [lastpart]; the encoder writes to a part
    only while it is the last one, so the part written to is
    [lastpart mw], and the pair of the writer and its sink is the state
    a write changes. *)
Record partWriter : Type := mkPW { mw_ : Writer; sink : W }.

Definition part_Write (pw : partWriter) (d : list byte)
  : partWriter * (Z * option error) :=
  match lastpart (mw_ pw) with
  | None => (pw, (0, Some (ErrLib "multipart: no part")))
  | Some p =>
    if closed p
    then (pw, (0, Some (ErrLib "multipart: can't write to finished part")))
    else
      let '(w, (k, e)) := io.Write (sink pw) d in
      let p := match e with Some _ => mkPart (closed p) e | None => p end in
      (mkPW (mk (boundary (mw_ pw)) (Some p)) w, (k, e))
  end.

(** A part has no [WriteString] method: [io.WriteString] converts and
    calls [Write]. *)
#[global] Instance partWriter_Writer : io.Writer partWriter :=
  {| io.Write := part_Write;
     io.WriteString pw s := part_Write pw (bytes_of s) |}.

End Methods.

Arguments partWriter W : clear implicits.

End multipart.

(** ** [encoding/base64]: the standard encoding and its streaming encoder *)

Module base64.

Definition encodeStd : string :=
  "ABCDEFGHIJKLMNOPQRSTUVWXYZabcdefghijklmnopqrstuvwxyz0123456789+/".

Definition digit (v : N) : byte :=
  nth (N.to_nat (N.land v 63)) (bytes_of encodeStd) "="%byte.

(** [StdEncoding.Encode]: three bytes give four digits, the last group
    is padded with ['=']. *)
Fixpoint Encode (src : list byte) : list byte :=
  match src with
  | [] => []
  | [a] =>
    let v := N.shiftl (Byte.to_N a) 16 in
    [digit (N.shiftr v 18); digit (N.shiftr v 12); "="%byte; "="%byte]
  | [a; b] =>
    let v := N.lor (N.shiftl (Byte.to_N a) 16) (N.shiftl (Byte.to_N b) 8) in
    [digit (N.shiftr v 18); digit (N.shiftr v 12); digit (N.shiftr v 6); "="%byte]
  | a :: b :: c :: src =>
    let v := N.lor (N.lor (N.shiftl (Byte.to_N a) 16) (N.shiftl (Byte.to_N b) 8))
                   (Byte.to_N c) in
    digit (N.shiftr v 18) :: digit (N.shiftr v 12) :: digit (N.shiftr v 6)
      :: digit v :: Encode src
  end.

(** The encoder returned by [NewEncoder]: up to two bytes wait in [buf]
    for the rest of their group; [err] is the first error of the
    underlying writer. *)
Record encoder : Type := mk { buf : list byte; err : option error }.

Definition NewEncoder : encoder := mk [] None.

Section OverChunkWriter.
Context {W : Type} `{!io.Writer W}.

(** [enc.Write(p)].  The complete groups of [buf ++ p] are encoded and
    handed to the chunk writer; the library does so in pieces of at
    most 1024 bytes, the model in one call. *)
Definition Write (enc : encoder) (cw : chunkWriter.t W) (p : list byte)
  : outcome (encoder * chunkWriter.t W * (Z * option error)) :=
  match err enc with
  | Some e => Returns (enc, cw, (0, Some e))
  | None =>
    let all := buf enc ++ p in
    let k := (length all / 3 * 3)%nat in
    if (k =? 0)%nat then Returns (mk all None, cw, (len p, None))
    else
      match chunkWriter.Write cw (Encode (take k all)) with
      | Returns (cw, (_, Some e)) => Returns (mk [] (Some e), cw, (0, Some e))
      | Returns (cw, (_, None)) => Returns (mk (drop k all) None, cw, (len p, None))
      | Panics => Panics
      | OutOfFuel => OutOfFuel
      end
  end.

(** [enc.Close()] flushes the incomplete group, padded. *)
Definition Close (enc : encoder) (cw : chunkWriter.t W)
  : outcome (encoder * chunkWriter.t W * option error) :=
  match err enc, buf enc with
  | None, _ :: _ =>
    match chunkWriter.Write cw (Encode (buf enc)) with
    | Returns (cw, (_, e)) => Returns (mk [] e, cw, e)
    | Panics => Panics
    | OutOfFuel => OutOfFuel
    end
  | e, _ => Returns (enc, cw, e)
  end.

End OverChunkWriter.

End base64.

(** ** writeHeader (email.go, lines 492-508)

    Go leaves the iteration order of a map unspecified; the model visits
    the fields in the order of [map_to_list].  The results of the
    [io.WriteString] calls are dropped, as in the source. *)

Section WriteHeader.
Context (env : Env) {W : Type} `{!io.Writer W}.

Definition writeHeader_value (w : W) (field subval : string) : W :=
  let '(w, _) := io.WriteString w field in
  let '(w, _) := io.WriteString w ": " in
  let '(w, _) :=
    if bool_decide (field = contentType) || bool_decide (field = contentDispo)
    then io.WriteString w subval
    else io.WriteString w (QEncode env subval) in
  let '(w, _) := io.WriteString w lineEnding in
  w.

Definition writeHeader (w : W) (header : MIMEHeader) : W :=
  foldl (λ w '(field, vals), foldl (λ w subval, writeHeader_value w field subval) w vals)
        w (map_to_list header).

End WriteHeader.

(** ** sniffType, Attach, AttachFile and Close (email.go, lines 134-142
    and 204-261) *)

Definition quote : string := String "034"%char EmptyString.

(** An [io.ReadSeeker] as [sniffType] and [Attach] find it:
    [Read512] is what [rs.Read(buf[:])] returns for the 512-byte buffer,
    the bytes [buf[:n]] and the error; [Seek0] is what
    [rs.Seek(0, os.SEEK_SET)] returns after that read; [unread] is the
    reader when neither call was made, [rewound] the reader after both. *)
Record ReadSeeker : Type := mkReadSeeker {
  Read512 : list byte * option error;
  Seek0 : option error;
  unread : ReadCloser;
  rewound : ReadCloser
}.

(** The [io.ReadCloser] handed to [Attach]: one that also implements
    [io.Seeker], one that does not, or nil. *)
Inductive source : Type :=
| Seeker (rs : ReadSeeker)
| Stream (rc : ReadCloser)
| NoSource.

(** An [*os.File] over a regular file that stands at its start: [pieces]
    are the data [io.Copy] reads from it. *)
Definition regularFile (pieces : list (list byte)) (seekErr : option error)
  : ReadSeeker :=
  let data := concat pieces in
  {| Read512 := match data with
                | [] => ([], Some EOF)
                | _ :: _ => (take 512 data, None)
                end;
     Seek0 := seekErr;
     unread := mkReadCloser pieces None;
     rewound := mkReadCloser pieces None |}.

(** The two lookups of the standard library. *)
Record Lookup : Type := {
  TypeByExtension : string → string;      (* mime.TypeByExtension(filepath.Ext(name)) *)
  DetectContentType : list byte → string  (* http.DetectContentType *)
}.

Section Attach.

Context (lk : Lookup).

(** [sniffType(name, rs)]: the error, or the content type together with
    the reader as the call leaves it. *)
Definition sniffType (name : string) (rs : ReadSeeker)
  : error + string * ReadCloser :=
  let ctype := TypeByExtension lk name in
  if negb (bool_decide (ctype = "")) then inr (ctype, unread rs)
  else
    let '(buf, err) := Read512 rs in
    match err with
    | Some err => inl err
    | None =>
      match Seek0 rs with
      | Some err => inl err
      | None => inr (DetectContentType lk buf, rewound rs)
      end
    end.

(** [Attach]: the message after the call, the error, and whether the
    call has closed [rc].  Inside [Attach] the parameter [contentType]
    hides the package constant of that name, so the key of the last
    entry of the header literal is the content type itself; the entries
    are stored in the order of the literal. *)
Definition Attach (e : Email.t) (rc : source) (filename contentType_ : string)
  : Email.t * option error * bool :=
  let sniffed : error + string * option ReadCloser :=
    if bool_decide (contentType_ = "") then
      match rc with
      | Seeker rs =>
        match sniffType filename rs with
        | inl err => inl err
        | inr (ctype, body) => inr (ctype, Some body)
        end
      | Stream body => inr ("application/octet-stream", Some body)
      | NoSource => inr ("application/octet-stream", None)
      end
    else
      inr (contentType_,
           match rc with
           | Seeker rs => Some (unread rs)
           | Stream body => Some body
           | NoSource => None
           end) in
  match sniffed with
  | inl err => (e, Some err, true)
  | inr (contentType_, body) =>
    (Email.set_Attachments e
       (Email.Attachments e ++
        [Attachment.mk filename
           (<[contentType_ := [contentType_]]>
            (<[contentXferEncoding := ["base64"]]>
             (<[contentID := ["<" ++ filename ++ ">"]%string]>
              (<[contentDispo := ["attachment;\r\n filename=" ++ quote ++ filename ++ quote]%string]>
               ∅))))
           body]),
     None, false)
  end.

(** [AttachFile]; [Open filename] is [os.Open(filename)]. *)
Definition AttachFile (Open : string → error + ReadSeeker)
    (e : Email.t) (filename : string) : Email.t * option error * bool :=
  match Open filename with
  | inl err => (e, Some err, false)
  | inr file => Attach e (Seeker file) filename ""
  end.

End Attach.

(** [Close]: [closeBody a] is what [a.Body.Close()] returns; on a nil
    [Body] the call panics.  The result lists the attachments whose body
    the call has closed, in the order of the calls, and the error
    returned. *)
Fixpoint Close_loop (closeBody : Attachment.t → option error)
    (atts : list Attachment.t) : outcome (list Attachment.t * option error) :=
  match atts with
  | [] => Returns ([], None)
  | a :: atts =>
    match Attachment.Body a with
    | None => Panics
    | Some _ =>
      match closeBody a with
      | Some err => Returns ([a], Some err)
      | None =>
        match Close_loop closeBody atts with
        | Returns (closed, err) => Returns (a :: closed, err)
        | Panics => Panics
        | OutOfFuel => OutOfFuel
        end
      end
    end
  end.

Definition Close (closeBody : Attachment.t → option error) (e : Email.t)
  : outcome (list Attachment.t * option error) :=
  Close_loop closeBody (Email.Attachments e).

(** ** writeTo and WriteTo (email.go, lines 343-434) *)

Section WriteTo.
Context (env : Env) (now : time.Time).

Section Sink.
Context {W : Type} `{!io.Writer W}.

(** The closure [writeBody]; [header] and [sw] are the variables it
    captures and changes. *)
Definition writeBody (w : W) (sw : multipart.Writer) (header : MIMEHeader)
    (content : list byte) (ctype : string)
  : W * multipart.Writer * MIMEHeader * option error :=
  if len content =? 0 then (w, sw, header, None)
  else
    let header := textproto.Set_ header contentType ctype in
    let header := textproto.Set_ header contentXferEncoding "quoted-printable" in
    let '(sw, w, e) := multipart.CreatePart sw w header in
    match e with
    | Some e => (w, sw, header, Some e)
    | None =>
      (* qp.Write(content), then qp.Close() *)
      let '(w, (_, e)) := io.Write w (qpEncode env content) in
      (w, sw, header, e)
    end.

(** [io.Copy(enc, src)]: what each read delivers is written to the
    encoder; the copy ends with the first error of a write, with a
    short write, or with the error that ends the reads, where [io.EOF]
    counts as none. *)
Fixpoint Copy (enc : base64.encoder) (cw : chunkWriter.t (multipart.partWriter W))
    (reads : list (list byte)) (readErr : option error)
  : outcome (base64.encoder * chunkWriter.t (multipart.partWriter W) * option error) :=
  match reads with
  | [] => Returns (enc, cw, readErr)
  | p :: reads =>
    if 0 <? len p then
      match base64.Write enc cw p with
      | Returns (enc, cw, (nw, Some ew)) => Returns (enc, cw, Some ew)
      | Returns (enc, cw, (nw, None)) =>
        if (nw <? 0) || (len p <? nw) then Returns (enc, cw, Some errInvalidWrite)
        else if negb (len p =? nw) then Returns (enc, cw, Some ErrShortWrite)
        else Copy enc cw reads readErr
      | Panics => Panics
      | OutOfFuel => OutOfFuel
      end
    else Copy enc cw reads readErr
  end.

(** The loop over the attachments.  [cw.w] is the part just created;
    the encoder [enc] writes to [cw]. *)
Fixpoint writeAttachments (cw : chunkWriter.t (multipart.partWriter W))
    (enc : base64.encoder) (atts : list Attachment.t)
  : outcome (chunkWriter.t (multipart.partWriter W) * base64.encoder * option error) :=
  match atts with
  | [] => Returns (cw, enc, None)
  | a :: atts =>
    let pw := chunkWriter.w cw in
    let '(mw, w, e) :=
      multipart.CreatePart (multipart.mw_ pw) (multipart.sink pw) (Attachment.Header a) in
    let cw := chunkWriter.mk (multipart.mkPW mw w) (chunkWriter.n cw) (chunkWriter.err cw) in
    match e with
    | Some e => Returns (cw, enc, Some e)
    | None =>
      match Attachment.Body a with
      | None => Panics                (* src.Read on a nil interface *)
      | Some body =>
        match Copy enc cw (reads body) (readErr body) with
        | Returns (enc, cw, Some e) => Returns (cw, enc, Some e)
        | Returns (enc, cw, None) => writeAttachments cw enc atts
        | Panics => Panics
        | OutOfFuel => OutOfFuel
        end
      end
    end
  end.

Definition writeTo (e : Email.t) (w : W) : outcome (W * option error) :=
  match msgHeaders env e now with
  | inl err => Returns (w, Some err)
  | inr hdrs =>
    let mw := multipart.NewWriter (mixedBoundary env) in
    let hdrs :=
      textproto.Set_ hdrs contentType
        ("multipart/mixed;" ++ CRLF ++ " boundary=" ++ multipart.Boundary mw) in
    let w := writeHeader env w hdrs in
    let '(w, _) := io.WriteString w lineEnding in
    (* Start the multipart/mixed part *)
    let '(w, _) := io.Write w (bytes_of ("--" ++ multipart.Boundary mw ++ CRLF)) in
    let header : MIMEHeader := ∅ in
    let '(w, e1) :=
      if (0 <? len (Email.Text e)) || (0 <? len (Email.HTML e)) then
        let sw := multipart.NewWriter (altBoundary env) in
        let header :=
          textproto.Set_ header contentType
            ("multipart/alternative;" ++ CRLF ++ " boundary="
               ++ multipart.Boundary sw ++ CRLF) in
        let w := writeHeader env w header in
        let '(w, sw, header, _) :=
          writeBody w sw header (Email.Text e) "text/plain; charset=UTF-8" in
        let '(w, sw, header, _) :=
          writeBody w sw header (Email.HTML e) "text/html; charset=UTF-8" in
        let '(_, w, e) := multipart.Close sw w in
        (w, e)
      else (w, None) in
    match e1 with
    | Some err => Returns (w, Some err)
    | None =>
      let attached : outcome (multipart.Writer * W * option error) :=
        if 0 <? len (Email.Attachments e) then
          let cw := chunkWriter.new (multipart.mkPW mw w) in
          let enc := base64.NewEncoder in
          match writeAttachments cw enc (Email.Attachments e) with
          | Returns (cw, enc, Some err) =>
            let pw := chunkWriter.w cw in
            Returns (multipart.mw_ pw, multipart.sink pw, Some err)
          | Returns (cw, enc, None) =>
            match base64.Close enc cw with
            | Returns (enc, cw, Some err) =>
              let pw := chunkWriter.w cw in
              Returns (multipart.mw_ pw, multipart.sink pw, Some err)
            | Returns (enc, cw, None) =>
              let '(cw, e) := chunkWriter.Close cw in
              let pw := chunkWriter.w cw in
              Returns (multipart.mw_ pw, multipart.sink pw, e)
            | Panics => Panics
            | OutOfFuel => OutOfFuel
            end
          | Panics => Panics
          | OutOfFuel => OutOfFuel
          end
        else Returns (mw, w, None) in
      match attached with
      | Returns (mw, w, Some err) => Returns (w, Some err)
      | Returns (mw, w, None) =>
        let '(_, w, e) := multipart.Close mw w in
        Returns (w, e)
      | Panics => Panics
      | OutOfFuel => OutOfFuel
      end
    end
  end.

End Sink.

(** [WriteTo]: the sink after the call, the count and the error. *)
Definition WriteTo {W : Type} `{!io.Writer W} (e : Email.t) (w : W)
  : outcome (W * (Z * option error)) :=
  let cw := countWriter.mk w 0 in
  match writeTo e cw with
  | Returns (cw, err) => Returns (countWriter.w cw, (countWriter.n cw, err))
  | Panics => Panics
  | OutOfFuel => OutOfFuel
  end.

(** [MarshalText]: [WriteTo] into a fresh [bytes.Buffer]. *)
Definition MarshalText (e : Email.t) : outcome (list byte + error) :=
  match WriteTo e ([] : Buffer) with
  | Returns (b, (_, None)) => Returns (inl b)
  | Returns (_, (_, Some err)) => Returns (inr err)
  | Panics => Panics
  | OutOfFuel => OutOfFuel
  end.

End WriteTo.

(** ** The decoder (email.go, lines 84-202) *)

(** [part] is a copyable representation of a [multipart.Part]. *)
Record part : Type := mkpart { ctyp : string; body : list byte }.

(** An [io.Reader] positioned at the start of an entity body, given by
    what the decoder can observe of it: [content] is the outcome of
    draining it with [io.Copy]; [nextParts b] is the sequence of results
    of [NextPart] on [multipart.NewReader(r, b)], each part with its
    header and its own reader, up to [io.EOF] or another error. *)
Inductive reader : Type :=
| Reader (content : error + list byte) (nextParts : string → parts)
with parts : Type :=
| PartsEOF
| PartsErr (e : error)
| PartsNext (Header : MIMEHeader) (p : reader) (rest : parts).

(** A [textproto.Reader]: the result of its [ReadMIMEHeader] call and the
    reader [R] left at the start of the body. *)
Module tpReader.
Record t : Type := mk { ReadMIMEHeader : error + MIMEHeader; R : reader }.
End tpReader.

Definition DefaultEmailSize : Z := 2 ^ 20.

Section Decoder.

(** [mime.ParseMediaType]: the media type and its parameters. *)
Context (ParseMediaType : string → error + (string * gmap string string)).

(** [p] is a Go map: the default set here is seen by every holder of the
    map, so the updated map is returned along with the results. *)
Definition parseMediaType (p : MIMEHeader)
  : MIMEHeader * (error + (string * string)) :=
  let p :=
    if negb (textproto.has p contentType)
    then textproto.Set_ p contentType defaultContentType else p in
  match ParseMediaType (textproto.Get p contentType) with
  | inl err => (p, inl err)
  | inr (mtyp, params) => (p, inr (mtyp, default "" (params !! "boundary")))
  end.

(** [parseMIMEParts] and the loop of [parseMultipart], which call each
    other; the recursion follows the tree of parts. *)
Fixpoint parseMIMEParts (p : MIMEHeader) (r : reader) {struct r}
  : MIMEHeader * (error + list part) :=
  let '(p, res) := parseMediaType p in
  match res with
  | inl err => (p, inl err)
  | inr (mtyp, bdy) =>
    if String.prefix "multipart/" mtyp then
      (* parseMultipart(r, bdy) *)
      let sps :=
        if bool_decide (bdy = "") then inl ErrMissingBoundary
        else match r with Reader _ nextParts => parseMultipart_loop [] (nextParts bdy) end in
      match sps with
      | inl err => (p, inl err)
      | inr sps => (p, inr ([] ++ sps))
      end
    else
      match r with
      | Reader (inl err) _ => (p, inl err)
      | Reader (inr b) _ => (p, inr [mkpart mtyp b])
      end
  end
with parseMultipart_loop (ps : list part) (s : parts) {struct s}
  : error + list part :=
  match s with
  | PartsEOF => inr ps
  | PartsErr err => inl err
  | PartsNext h r rest =>
    match snd (parseMIMEParts h r) with
    | inl err => inl err
    | inr pp => parseMultipart_loop (ps ++ pp) rest
    end
  end.

Definition parseMultipart (r : reader) (boundary : string) : error + list part :=
  if bool_decide (boundary = "") then inl ErrMissingBoundary
  else match r with Reader _ nextParts => parseMultipart_loop [] (nextParts boundary) end.

(** The [switch] in the loop over the parts. *)
Definition classify (e : Email.t) (p : part) : Email.t :=
  if bool_decide (ctyp p = "text/plain") then Email.set_Text e (body p)
  else if bool_decide (ctyp p = "text/html") then Email.set_HTML e (body p)
  else e.

Section NewWithSize.
Context {R0 : Type} `{!io.Reader R0}.

(** [textproto.NewReader(bufio.NewReader(s))] *)
Context (NewReader : trimReader.t (LimitedReader.t R0) → tpReader.t).

(** [hdrs] and [e.Headers] are one map: what is deleted from, or set
    in, the one is deleted from, or set in, the other. *)
Definition NewWithSize (r : R0) (maxSize : Z) : error + Email.t :=
  let s := trimReader.mk (LimitReader r maxSize) in
  let tp := NewReader s in
  match tpReader.ReadMIMEHeader tp with
  | inl err => inl err
  | inr hdrs =>
    let e :=
      Email.mk (textproto.Get hdrs from)
               (textproto.index hdrs to)
               (textproto.index hdrs cc)
               (textproto.index hdrs bcc)
               (textproto.Get hdrs subject)
               [] [] (Some hdrs) [] in
    let hdrs := foldl (λ hdrs hv, delete hv hdrs) hdrs [subject; to; cc; bcc] in
    let e := Email.set_Headers e (Some hdrs) in
    let '(hdrs, ps) := parseMIMEParts hdrs (tpReader.R tp) in
    let e := Email.set_Headers e (Some hdrs) in
    match ps with
    | inl err => inl err
    | inr ps => inr (foldl classify e ps)
    end
  end.

Definition New (r : R0) : error + Email.t := NewWithSize r DefaultEmailSize.

End NewWithSize.

End Decoder.

(** The leaf the claim of "first wins" and the one of "last wins" name:
    the body of the first, or of the last, part of type [ty]. *)
Definition first_of_type (ty : string) (ps : list part) : option (list byte) :=
  body <$> head (filter (λ p, ctyp p = ty) ps).

Definition last_of_type (ty : string) (ps : list part) : option (list byte) :=
  body <$> last (filter (λ p, ctyp p = ty) ps).

(** Whether a byte sequence contains a CR immediately followed by a LF. *)
Fixpoint hasCRLF (l : list byte) : bool :=
  match l with
  | [] => false
  | b :: t =>
    match t with
    | b' :: _ => bool_decide (b = CR ∧ b' = LF) || hasCRLF t
    | [] => false
    end
  end.

(** ** Inputs of the examples *)

(** A message with no sender whose [Headers] map is empty but not nil. *)
Definition noSender : Email.t :=
  Email.mk "" ["b@x.com"] [] [] "S" [] [] (Some ∅) [].

(** A message whose [Headers] hold one field of the caller's and none of
    the fields the assembler derives. *)
Definition withMailer : Email.t :=
  Email.mk "a@x.com" ["b@x.com"] ["c@x.com"] [] "S" [] []
           (Some {["X-Mailer" := ["m"]]}) [].

(** A message whose [Headers] override [Mime-Version]. *)
Definition withMimeVersion : Email.t :=
  Email.mk "a@x.com" ["b@x.com"] [] [] "S" [] []
           (Some {[mimeVers := ["2.0"]]}) [].

(** The smallest message that encodes: a sender and nothing else. *)
Definition senderOnly : Email.t :=
  Email.mk "a@x.com" [] [] [] "" [] [] None [].

(** An environment for the examples.  The date, the digest and the host
    name are fixed values of the right shape; the two encoders return their
    argument, which is what [mime.QEncoding] and [quotedprintable] do on
    the short printable ASCII values the examples use; the boundaries are
    sixty hexadecimal digits, as [multipart.NewWriter] draws them. *)
Definition exampleEnv : Env := {|
  Format := λ _ _, "Mon, 02 Jan 2006 15:04:05 -0700";
  sha256_Sum := λ _, repeat x00 32;
  hostname := "localhost.localdomain";
  QEncode := λ s, s;
  qpEncode := λ b, b;
  mixedBoundary := "0123456789abcdef0123456789abcdef0123456789abcdef0123456789ab";
  altBoundary := "fedcba9876543210fedcba9876543210fedcba9876543210fedcba987654"
|}.

(** *** Inputs of the decoder examples

    The standard library's parsers are arguments of the decoder.  For the
    examples they are given by their values on the example messages:
    [mime.ParseMediaType] on the Content-Type values that occur, and
    [textproto.NewReader(bufio.NewReader(s))] on the streams the trim
    reader delivers for them. *)

Definition ParseMediaType_examples (v : string)
  : error + (string * gmap string string) :=
  if bool_decide (v = "text/plain; charset=us-ascii")
  then inr ("text/plain", {["charset" := "us-ascii"]})
  else if bool_decide (v = "text/plain") then inr ("text/plain", ∅)
  else if bool_decide (v = "application/pgp-signature")
  then inr ("application/pgp-signature", ∅)
  else if bool_decide (v = "multipart/mixed; boundary=outer")
  then inr ("multipart/mixed", {["boundary" := "outer"]})
  else if bool_decide (v = "multipart/signed; boundary=inner; micalg=pgp-sha1")
  then inr ("multipart/signed", {["boundary" := "inner"; "micalg" := "pgp-sha1"]})
  else inl (ErrLib "mime: no media type").

Definition noParts : string → parts :=
  λ _, PartsErr (ErrLib "multipart: NextPart: EOF").

(** A message without MIME structure, after [TestNonMultipartEmailFromReader]. *)
Definition rawPlain : string :=
"From: Foo Bar <foobar@example.com>
Content-Type: text/plain
To: foobar@example.com
Subject: Example Subject (no MIME Type)
Message-ID: <foobar@example.com>

This is a test message!".

Definition plainHeader : MIMEHeader :=
  <[from := ["Foo Bar <foobar@example.com>"]]>
  (<[contentType := ["text/plain"]]>
  (<[to := ["foobar@example.com"]]>
  (<[subject := ["Example Subject (no MIME Type)"]]>
  (<[msgID := ["<foobar@example.com>"]]> ∅)))).

Definition plainReader : tpReader.t :=
  tpReader.mk (inr plainHeader)
              (Reader (inr (bytes_of "This is a test message!")) noParts).

(** A message without a Content-Type field. *)
Definition rawBare : string :=
"From: a@x.com
Subject: S

hello".

Definition bareHeader : MIMEHeader :=
  <[from := ["a@x.com"]]> (<[subject := ["S"]]> ∅).

Definition bareReader : tpReader.t :=
  tpReader.mk (inr bareHeader) (Reader (inr (bytes_of "hello")) noParts).

(** A signed message inside a mixed one, after [TestMultipartNoContentType]:
    the signed text has no Content-Type of its own, the text after the
    signed part has. *)
Definition rawSigned : string :=
"From: Mikhail Gusarov <dottedmag@dottedmag.net>
To: notmuch@notmuchmail.org
Subject: Re: [notmuch] Working with Maildir storage?
Content-Type: multipart/mixed; boundary=outer

--outer
Content-Type: multipart/signed; boundary=inner; micalg=pgp-sha1

--inner
Content-Transfer-Encoding: quoted-printable

Twas brillig at 14:00:54 17.11.2009 UTC-05 when lars@seas.harvard.edu did g=
yre and gimble:

--inner
Content-Type: application/pgp-signature

-----BEGIN PGP SIGNATURE-----
-----END PGP SIGNATURE-----
--inner--

--outer
Content-Type: text/plain; charset=us-ascii

Testing!
--outer--
".

Definition signedHeader : MIMEHeader :=
  <[from := ["Mikhail Gusarov <dottedmag@dottedmag.net>"]]>
  (<[to := ["notmuch@notmuchmail.org"]]>
  (<[subject := ["Re: [notmuch] Working with Maildir storage?"]]>
  (<[contentType := ["multipart/mixed; boundary=outer"]]> ∅))).

Definition twas : list byte :=
  bytes_of "Twas brillig at 14:00:54 17.11.2009 UTC-05 when lars@seas.harvard.edu did gyre and gimble:".

Definition signature : list byte :=
  bytes_of ("-----BEGIN PGP SIGNATURE-----" ++ String "010" "-----END PGP SIGNATURE-----").

Definition signedInner : string → parts :=
  λ b,
    if bool_decide (b = "inner") then
      (* the library decodes quoted-printable and drops the field *)
      PartsNext ∅ (Reader (inr twas) noParts)
        (PartsNext {[contentType := ["application/pgp-signature"]]}
                   (Reader (inr signature) noParts)
           PartsEOF)
    else PartsErr (ErrLib "multipart: NextPart: EOF").

Definition signedOuter : string → parts :=
  λ b,
    if bool_decide (b = "outer") then
      PartsNext {[contentType := ["multipart/signed; boundary=inner; micalg=pgp-sha1"]]}
                (Reader (inr []) signedInner)
        (PartsNext {[contentType := ["text/plain; charset=us-ascii"]]}
                   (Reader (inr (bytes_of "Testing!")) noParts)
           PartsEOF)
    else PartsErr (ErrLib "multipart: NextPart: EOF").

Definition signedReader : tpReader.t :=
  tpReader.mk (inr signedHeader) (Reader (inr []) signedOuter).

Definition signedLeaves : list part :=
  [mkpart "text/plain" twas;
   mkpart "application/pgp-signature" signature;
   mkpart "text/plain" (bytes_of "Testing!")].

(** The reader the library builds on the stream, which [bufio] asks for
    in buffers of 4096 bytes. *)
Definition exampleNewReader {R0} `{!io.Reader R0}
    (s : trimReader.t (LimitedReader.t R0)) : tpReader.t :=
  let stream := ReadCalls s [4096; 4096]%nat in
  if bool_decide (stream = bytes_of rawPlain) then plainReader
  else if bool_decide (stream = bytes_of rawBare) then bareReader
  else if bool_decide (stream = bytes_of rawSigned) then signedReader
  else tpReader.mk (inl (ErrLib "malformed MIME header line")) (Reader (inr []) noParts).

(** The same message read from a source that starts with blank lines. *)
Definition rawBare_after_blank_lines : list byte :=
  [CR; LF; LF] ++ bytes_of rawBare.

(** What decoding the example messages gives. *)
Definition signedEmail : Email.t :=
  Email.mk "Mikhail Gusarov <dottedmag@dottedmag.net>"
           ["notmuch@notmuchmail.org"] [] []
           "Re: [notmuch] Working with Maildir storage?"
           (bytes_of "Testing!") []
           (Some (<[from := ["Mikhail Gusarov <dottedmag@dottedmag.net>"]]>
                  (<[contentType := ["multipart/mixed; boundary=outer"]]> ∅)))
           [].

Definition bareEmail : Email.t :=
  Email.mk "a@x.com" [] [] [] "S" (bytes_of "hello") []
           (Some (<[from := ["a@x.com"]]>
                  (<[contentType := [defaultContentType]]> ∅)))
           [].

(** The input and the expected output of [Test_chunkWriter]. *)
Definition testFile : string :=
"I'm a file long enough to force the function to wrap a
couple of lines, but I stop short of the end of one line and
have some padding dangling at the end.".

Definition testEncoded : string :=
  "SSdtIGEgZmlsZSBsb25nIGVub3VnaCB0byBmb3JjZSB0aGUgZnVuY3Rpb24gdG8gd3JhcCBhCmNv"
  ++ CRLF ++
  "dXBsZSBvZiBsaW5lcywgYnV0IEkgc3RvcCBzaG9ydCBvZiB0aGUgZW5kIG9mIG9uZSBsaW5lIGFu"
  ++ CRLF ++
  "ZApoYXZlIHNvbWUgcGFkZGluZyBkYW5nbGluZyBhdCB0aGUgZW5kLg=="
  ++ CRLF.

(** The run of [Test_chunkWriter]: copy the file to the encoder, close the
    encoder, close the chunk writer, and look at the buffer. *)
Definition run_Test_chunkWriter (file : list byte) : outcome (option Buffer) :=
  let cw := chunkWriter.new ([] : Buffer) in
  let dst := base64.NewEncoder in
  match base64.Write dst cw file with
  | Returns (dst, cw, (_, None)) =>
    match base64.Close dst cw with
    | Returns (dst, cw, None) =>
      match chunkWriter.Close cw with
      | (cw, None) => Returns (Some (chunkWriter.w cw))
      | (_, Some _) => Returns None
      end
    | Returns (_, _, Some _) => Returns None
    | Panics => Panics
    | OutOfFuel => OutOfFuel
    end
  | Returns (_, _, (_, Some _)) => Returns None
  | Panics => Panics
  | OutOfFuel => OutOfFuel
  end.

(** *** Inputs of the further examples *)

(** A message with a sender, two recipients and a subject; [Headers] is
    nil. *)
Definition plainMessage : Email.t :=
  Email.mk "a@x.com" ["b@x.com"; "c@x.com"] [] [] "S" [] [] None [].

(** Two messages whose sender and subject differ and concatenate to the
    same text. *)
Definition splitAfterAB : Email.t := Email.mk "ab" [] [] [] "c" [] [] None [].
Definition splitAfterA : Email.t := Email.mk "a" [] [] [] "bc" [] [] None [].

(** How a sequence of parts ends: with [io.EOF], which is [None], or with
    another error. *)
Fixpoint parts_end (s : parts) : option error :=
  match s with
  | PartsEOF => None
  | PartsErr err => Some err
  | PartsNext _ _ rest => parts_end rest
  end.

(** A message that declares a multipart type and gives no boundary. *)
Definition ParseMediaType_bare_multipart (v : string)
  : error + (string * gmap string string) :=
  if bool_decide (v = "multipart/mixed") then inr ("multipart/mixed", ∅)
  else ParseMediaType_examples v.

Definition bareMultipartHeader : MIMEHeader :=
  <[from := ["a@x.com"]]> (<[contentType := ["multipart/mixed"]]> ∅).

Definition bareMultipartReader : tpReader.t :=
  tpReader.mk (inr bareMultipartHeader) (Reader (inr (bytes_of "body")) noParts).

(** A multipart body that breaks off after its first part. *)
Definition truncatedParts : string → parts :=
  λ _, PartsNext {[contentType := ["text/plain"]]}
                 (Reader (inr (bytes_of "first")) noParts)
                 (PartsErr (ErrLib "multipart: NextPart: EOF")).

(** Lookups that know the extension [.txt] and take everything else for
    plain text or, when it starts with ["%PDF-"], for a PDF file. *)
Definition exampleLookup : Lookup := {|
  TypeByExtension name :=
    if String.eqb (String.substring (String.length name - 4) 4 name) ".txt"
    then "text/plain; charset=utf-8" else "";
  DetectContentType data :=
    if bool_decide (take 5 data = bytes_of "%PDF-") then "application/pdf"
    else "text/plain; charset=utf-8"
|}.


(** ** States of the multipart writer while a message is encoded *)

(** The part written last is open and has met no error. *)
Definition part_open (pw : multipart.partWriter (countWriter.t Buffer)) : Prop :=
  multipart.lastpart (multipart.mw_ pw) = Some (multipart.mkPart false None).

(** The part written last, if there is one, has met no error. *)
Definition no_part_error (mw : multipart.Writer) : Prop :=
  match multipart.lastpart mw with
  | Some p => multipart.we p = None
  | None => True
  end.

(** ** Attachments whose body can be copied *)

(** The body is not nil and its reads end with [io.EOF]. *)
Definition reads_to_end (a : Attachment.t) : Prop :=
  ∃ body, Attachment.Body a = Some body ∧ readErr body = None.

(** ** Carrying a change of the sink through the writers built on it *)

Definition on_outcome {A B : Type} (f : A → B) (o : outcome A) : outcome B :=
  match o with
  | Returns a => Returns (f a)
  | Panics => Panics
  | OutOfFuel => OutOfFuel
  end.

Definition cw_map {W W' : Type} (φ : W → W') (c : chunkWriter.t W)
  : chunkWriter.t W' :=
  chunkWriter.mk (φ (chunkWriter.w c)) (chunkWriter.n c) (chunkWriter.err c).

Definition pw_map {W W' : Type} (φ : W → W') (pw : multipart.partWriter W)
  : multipart.partWriter W' :=
  multipart.mkPW (multipart.mw_ pw) (φ (multipart.sink pw)).

(** The count writer over a buffer that held [b0] before. *)
Definition prepend (b0 : list byte) (c : countWriter.t Buffer)
  : countWriter.t Buffer :=
  countWriter.mk (b0 ++ countWriter.w c) (countWriter.n c).


(** * Theorems *)

(** ** The chunked-line writer *)

Section Chunked.

Lemma chunked_app (p q : list byte) : ∀ k : nat,
  (k < 76)%nat →
  chunked k (p ++ q) = chunked k p ++ chunked ((k + length p) mod 76) q.
Proof.
  induction p as [|b p IH]; intros k Hk.
  - cbn [chunked app length]. rewrite Nat.add_0_r, Nat.mod_small by lia. reflexivity.
  - cbn [chunked app length].
    destruct (decide (S k = 76%nat)) as [E|E]; cbn [app].
    + rewrite IH by lia.
      replace (k + S (length p))%nat with (0 + length p + 1 * 76)%nat by lia.
      rewrite Nat.Div0.mod_add. reflexivity.
    + rewrite IH by lia.
      replace (S k + length p)%nat with (k + S (length p))%nat by lia.
      reflexivity.
Qed.

(** Shorter than what is left of the line: nothing is inserted. *)
Lemma chunked_short (p : list byte) : ∀ k : nat,
  (k + length p < 76)%nat → chunked k p = p.
Proof.
  induction p as [|b p IH]; intros k Hk; simpl in *; [reflexivity|].
  destruct (decide (S k = 76%nat)); [lia|]. rewrite IH by lia. reflexivity.
Qed.

(** Exactly what is left of the line: the terminator follows. *)
Lemma chunked_fill (p : list byte) : ∀ k : nat,
  p ≠ [] → (k + length p = 76)%nat → chunked k p = p ++ [CR; LF].
Proof.
  induction p as [|b p IH]; intros k Hp Hk; simpl in *; [congruence|].
  destruct (decide (S k = 76%nat)) as [E|E].
  - destruct p; simpl in *; [reflexivity | lia].
  - rewrite IH; [reflexivity | | lia]. destruct p; simpl in *; [lia | congruence].
Qed.

Lemma wrap64_small (z : Z) : - 2 ^ 63 ≤ z < 2 ^ 63 → wrap64 z = z.
Proof. intros H. unfold wrap64. rewrite Z.mod_small; lia. Qed.

Lemma bytes_of_lineEnding : bytes_of lineEnding = [CR; LF].
Proof. reflexivity. Qed.

(** One pass of the loop over a buffer, in terms of [chunked]. *)
Lemma chunked_take_drop (p : list byte) (k m : nat) :
  (0 < m)%nat → (m ≤ length p)%nat → (k + m ≤ 76)%nat →
  chunked k p =
    take m p ++ (if decide ((k + m)%nat = 76%nat) then [CR; LF] else [])
           ++ chunked ((k + m) mod 76) (drop m p).
Proof.
  intros H0 Hm Hk.
  rewrite <- (take_drop m p) at 1.
  assert (Hl : length (take m p) = m) by (rewrite length_take; lia).
  rewrite chunked_app by lia. rewrite Hl.
  destruct (decide ((k + m)%nat = 76%nat)) as [E|E].
  - rewrite chunked_fill; [| | lia].
    + rewrite <- app_assoc. reflexivity.
    + intros Hnil. rewrite Hnil in Hl. simpl in Hl. lia.
  - rewrite chunked_short by lia. reflexivity.
Qed.

Import chunkWriter.

(** On a buffer the loop always returns, without an error, having
    appended the chunked form of [p]. *)
Lemma Write_loop_Buffer (fuel : nat) :
  ∀ (c : chunkWriter.t Buffer) (p : list byte) (cnt : Z),
    (length p ≤ fuel)%nat → 0 ≤ n c < 76 →
    ∃ cnt',
      Write_loop fuel c p cnt =
        Returns (mk (w c ++ chunked (Z.to_nat (n c)) p)
                    (Z.of_nat ((Z.to_nat (n c) + length p) mod 76))
                    (err c),
                 (cnt', None))
      ∧ (0 ≤ cnt → cnt + len p < 2 ^ 63 → cnt' = cnt + len p).
Proof.
  induction fuel as [|fuel IH]; intros c p cnt Hf Hn.
  - destruct p; [|simpl in Hf; lia].
    exists cnt. split; [|unfold len; simpl; lia].
    destruct c as [w0 n0 e0]. cbn [Write_loop length chunked w n err] in *.
    rewrite app_nil_r, Nat.add_0_r, Nat.mod_small, Z2Nat.id by lia. reflexivity.
  - destruct p as [|b p0].
    { exists cnt. split; [|unfold len; simpl; lia].
      destruct c as [w0 n0 e0]. cbn [Write_loop length chunked w n err] in *.
      rewrite app_nil_r, Nat.add_0_r, Nat.mod_small, Z2Nat.id by lia. reflexivity. }
    set (p := b :: p0) in *.
    assert (Hp : (0 < length p)%nat) by (subst p; simpl; lia).
    destruct c as [w0 n0 e0]. cbn [w n err] in *.
    set (k := Z.to_nat n0).
    set (m := Nat.min (76 - k) (length p)).
    assert (Hm0 : (0 < m)%nat) by (subst m k; lia).
    assert (Hm1 : (m ≤ length p)%nat) by (subst m; lia).
    assert (Hm2 : (k + m ≤ 76)%nat) by (subst m k; lia).
    assert (Hmz :
      (let m := wrap64 (maxLineLength - n0) in
       let m := if m =? 0 then maxLineLength else m in
       if m >? len p then len p else m) = Z.of_nat m).
    { cbv zeta. unfold maxLineLength. rewrite wrap64_small by lia.
      destruct (Z.eqb_spec (76 - n0) 0); [lia|].
      unfold len. destruct (Z.gtb_spec (76 - n0) (Z.of_nat (length p))); subst m k; lia. }
    destruct (IH (mk (w0 ++ take m p ++
                       (if decide ((k + m)%nat = 76%nat) then [CR; LF] else []))
                     (Z.of_nat ((k + m) mod 76)) e0)
                 (drop m p) (wrap64 (cnt + Z.of_nat m))) as (cnt' & Hrun & Hcnt).
    { rewrite length_drop. subst p. simpl in *. lia. }
    { cbn [n]. pose proof (Nat.mod_upper_bound (k + m) 76). lia. }
    exists cnt'. split.
    + subst p. unfold Write_loop; fold (@Write_loop Buffer _).
      set (p := b :: p0) in *. cbv zeta in Hmz. cbv zeta. cbn [w n err]. rewrite Hmz.
      destruct (Z.ltb_spec (Z.of_nat m) 0); [lia|].
      rewrite Nat2Z.id. cbn [io.Write Buffer_Writer w n err].
      assert (Hlen : len (take m p) = Z.of_nat m).
      { unfold len. rewrite length_take. lia. }
      rewrite Hlen.
      assert (Hw : wrap64 (n0 + Z.of_nat m) = Z.of_nat (k + m)).
      { rewrite wrap64_small; subst k; lia. }
      rewrite Hw. unfold maxLineLength.
      assert (Hb : (Z.of_nat m <? 0) || (len p <? Z.of_nat m) = false).
      { unfold len. apply orb_false_iff. split; [apply Z.ltb_ge | apply Z.ltb_ge]; lia. }
      destruct (decide ((k + m)%nat = 76%nat)) as [E|E].
      * destruct (Z.eqb_spec (Z.of_nat (k + m)) 76); [|lia].
        cbn [io.WriteString Buffer_Writer]. rewrite bytes_of_lineEnding.
        rewrite Hb, Nat2Z.id. cbn [w n err] in Hrun.
        rewrite E, Nat.Div0.mod_same in Hrun. change (Z.of_nat 0) with 0 in Hrun.
        rewrite <- !app_assoc in *. refine (eq_trans Hrun _). f_equal. f_equal. apply f_equal3; [|  | reflexivity].
        -- f_equal. rewrite (chunked_take_drop p k m) by lia.
           rewrite decide_True by exact E. rewrite E, Nat.Div0.mod_same.
           reflexivity.
        -- rewrite length_drop. change (Z.to_nat 0) with 0%nat.
           f_equal. replace (k + length p)%nat with (0 + (length p - m) + 1 * 76)%nat by lia.
           rewrite Nat.Div0.mod_add. reflexivity.
      * destruct (Z.eqb_spec (Z.of_nat (k + m)) 76); [lia|].
        rewrite Hb, Nat2Z.id. cbn [w n err] in Hrun.
        rewrite (Nat.mod_small (k + m)) in Hrun by lia.
        rewrite app_nil_r in Hrun. rewrite Nat2Z.id in Hrun.
        refine (eq_trans Hrun _). f_equal. f_equal. apply f_equal3; [|  | reflexivity].
        -- rewrite <- app_assoc. f_equal. rewrite (chunked_take_drop p k m) by lia.
           rewrite decide_False by exact E. rewrite (Nat.mod_small (k + m)) by lia.
           reflexivity.
        -- rewrite length_drop. do 2 f_equal. lia.
    + intros Hc0 Hc1. unfold len in *.
      rewrite wrap64_small in Hcnt by lia.
      rewrite Hcnt; rewrite ?length_drop; lia.
Qed.

End Chunked.

Section ChunkWriterOnBuffer.

Import chunkWriter.

Lemma Write_Buffer (c : chunkWriter.t Buffer) (p : list byte) :
  err c = None → 0 ≤ n c < 76 →
  ∃ cnt,
    Write c p =
      Returns (mk (w c ++ chunked (Z.to_nat (n c)) p)
                  (Z.of_nat ((Z.to_nat (n c) + length p) mod 76))
                  None,
               (cnt, None))
    ∧ (len p < 2 ^ 63 → cnt = len p).
Proof.
  intros He Hn. unfold Write. rewrite He.
  destruct (Write_loop_Buffer (length p) c p 0 (le_n _) Hn) as (cnt & Hrun & Hcnt).
  exists cnt. rewrite He in Hrun. split; [exact Hrun|].
  intros Hl. rewrite Hcnt; lia.
Qed.

(** Any sequence of writes to a fresh or running writer over a buffer
    leaves the chunked form of the concatenated payload in the buffer. *)
Lemma WriteAll_Buffer (ps : list (list byte)) :
  ∀ c : chunkWriter.t Buffer,
    err c = None → 0 ≤ n c < 76 →
    WriteAll c ps =
      Returns (mk (w c ++ chunked (Z.to_nat (n c)) (concat ps))
                  (Z.of_nat ((Z.to_nat (n c) + length (concat ps)) mod 76))
                  None,
               None).
Proof.
  induction ps as [|p ps IH]; intros c He Hn.
  - destruct c as [w0 n0 e0]. cbn [WriteAll concat chunked length w n err] in *.
    rewrite app_nil_r, Nat.add_0_r, Nat.mod_small, Z2Nat.id by lia.
    subst e0. reflexivity.
  - cbn [WriteAll concat].
    destruct (Write_Buffer c p He Hn) as (cnt & -> & _).
    pose proof (Nat.mod_upper_bound (Z.to_nat (n c) + length p) 76) as Hb.
    rewrite IH; cbn [w n err]; [|reflexivity|lia].
    rewrite Nat2Z.id, <- app_assoc, chunked_app by lia.
    rewrite length_app, Nat.add_assoc, Nat.Div0.add_mod_idemp_l.
    reflexivity.
Qed.

Lemma splitCRLF_from_cons2 (cur : list byte) (b b' : byte) (t : list byte) :
  splitCRLF_from cur (b :: b' :: t) =
    if decide (b = CR ∧ b' = LF) then rev cur :: splitCRLF_from [] t
    else splitCRLF_from (b :: cur) (b' :: t).
Proof. reflexivity. Qed.

Lemma splitCRLF_from_end (cur : list byte) :
  (length cur ≤ 76)%nat →
  Forall (λ l, (length l ≤ 76)%nat) (splitCRLF_from cur [CR; LF]).
Proof.
  intros H. rewrite splitCRLF_from_cons2, decide_True by done.
  constructor; [rewrite length_rev; lia|].
  constructor; [simpl; lia | constructor].
Qed.

(** Scanning chunked output that ends in the closing CRLF never sees a
    line of more than 76 bytes. *)
Lemma splitCRLF_chunked (fuel : nat) :
  ∀ (p cur : list byte) (k : nat),
    (length p ≤ fuel)%nat → (length cur ≤ k)%nat → (k < 76)%nat →
    Forall (λ l, (length l ≤ 76)%nat)
           (splitCRLF_from cur (chunked k p ++ [CR; LF])).
Proof.
  induction fuel as [|fuel IH]; intros p cur k Hf Hc Hk.
  - destruct p; [|simpl in Hf; lia].
    cbn [chunked app]. apply splitCRLF_from_end. lia.
  - destruct p as [|b p].
    { cbn [chunked app]. apply splitCRLF_from_end. lia. }
    cbn [length] in Hf. cbn [chunked].
    destruct (decide (S k = 76%nat)) as [E|E].
    + cbn [app]. rewrite splitCRLF_from_cons2.
      rewrite decide_False by (intros [_ ?]; discriminate).
      rewrite splitCRLF_from_cons2, decide_True by done.
      constructor; [rewrite length_rev; simpl; lia|].
      apply IH; simpl; lia.
    + destruct p as [|b' p].
      { cbn [chunked app]. rewrite splitCRLF_from_cons2.
        rewrite decide_False by (intros [_ ?]; discriminate).
        apply splitCRLF_from_end. simpl; lia. }
      cbn [length] in Hf.
      assert (Hstep : ∀ cur', (length cur' ≤ S k)%nat →
                Forall (λ l, (length l ≤ 76)%nat)
                  (splitCRLF_from cur' (chunked (S k) (b' :: p) ++ [CR; LF]))).
      { intros cur' Hc'. apply IH; simpl; lia. }
      revert Hstep. cbn [chunked].
      destruct (decide (S (S k) = 76%nat)) as [E2|E2]; cbn [app]; intros Hstep.
      * rewrite splitCRLF_from_cons2.
        destruct (decide (b = CR ∧ b' = LF)) as [[-> ->]|Hne].
        -- constructor; [rewrite length_rev; lia|].
           rewrite splitCRLF_from_cons2, decide_True by done.
           constructor; [simpl; lia|]. apply IH; simpl; lia.
        -- apply Hstep. simpl; lia.
      * rewrite splitCRLF_from_cons2.
        destruct (decide (b = CR ∧ b' = LF)) as [[-> ->]|Hne].
        -- constructor; [rewrite length_rev; lia|]. apply IH; simpl; lia.
        -- apply Hstep. simpl; lia.
Qed.

End ChunkWriterOnBuffer.

Section ChunkWriterClaims.

Import chunkWriter.

(** The repository's test of the chunk writer, run on the model. *)
Example Test_chunkWriter :
  run_Test_chunkWriter (bytes_of testFile) = Returns (Some (bytes_of testEncoded)).
Proof. vm_compute. reflexivity. Qed.

(** After [Close], a write and a second close return [errClosed] and
    leave the sink alone. *)
Lemma Write_after_Close {W} `{!io.Writer W} (c : chunkWriter.t W) (p : list byte) :
  Write (Close c).1 p = Returns ((Close c).1, (0, err (Close c).1))
  ∧ is_Some (err (Close c).1)
  ∧ Close (Close c).1 = ((Close c).1, err (Close c).1).
Proof.
  unfold Close, Write. destruct (err c) as [e|] eqn:He.
  - cbn [fst]. rewrite He. eauto.
  - destruct (io.WriteString _ _) as [w1 [k e]]. cbn [fst err]. eauto.
Qed.

(** For a payload without a CRLF of its own, removing every CRLF from
    the closed output gives the payload back as well. *)
Lemma stripCRLF_chunked (p : list byte) : ∀ k : nat,
  hasCRLF p = false → stripCRLF (chunked k p ++ [CR; LF]) = p.
Proof.
  induction p as [|b p IH]; intros k Hp.
  - cbn. rewrite decide_True by done. reflexivity.
  - cbn [chunked]. destruct (decide (S k = 76%nat)) as [E|E].
    + cbn [app stripCRLF]. rewrite decide_False by (intros [_ ?]; discriminate).
      change (stripCRLF (CR :: LF :: chunked 0 p ++ [CR; LF]))
        with (if decide (CR = CR ∧ LF = LF) then stripCRLF (chunked 0 p ++ [CR; LF])
              else CR :: stripCRLF (LF :: chunked 0 p ++ [CR; LF])).
      rewrite decide_True by done. f_equal. apply IH.
      destruct p as [|b' p]; [reflexivity|].
      cbn [hasCRLF] in Hp. apply orb_false_iff in Hp. apply Hp.
    + destruct p as [|b' p].
      * cbn. rewrite decide_False by (intros [_ ?]; discriminate).
        rewrite decide_True by done. reflexivity.
      * assert (Hp' : hasCRLF (b' :: p) = false ∧ ¬ (b = CR ∧ b' = LF)).
        { cbn [hasCRLF] in Hp. apply orb_false_iff in Hp. destruct Hp as [H1 H2].
          split; [exact H2|]. apply bool_decide_eq_false in H1. exact H1. }
        destruct Hp' as [Hp' Hne].
        specialize (IH (S k) Hp'). revert IH. cbn [chunked].
        destruct (decide (S (S k) = 76%nat)); cbn [app]; intros IH;
          cbn [stripCRLF]; rewrite decide_False by exact Hne;
          f_equal; exact IH.
Qed.

(** The same without the closing CRLF. *)
Lemma stripCRLF_chunked_open (p : list byte) : ∀ k : nat,
  hasCRLF p = false → stripCRLF (chunked k p) = p.
Proof.
  induction p as [|b p IH]; intros k Hp; [reflexivity|].
  cbn [chunked]. destruct (decide (S k = 76%nat)) as [E|E].
  - cbn [stripCRLF]. rewrite decide_False by (intros [_ ?]; discriminate).
    change (stripCRLF (CR :: LF :: chunked 0 p))
      with (if decide (CR = CR ∧ LF = LF) then stripCRLF (chunked 0 p)
            else CR :: stripCRLF (LF :: chunked 0 p)).
    rewrite decide_True by done. f_equal. apply IH.
    destruct p as [|b' p]; [reflexivity|].
    cbn [hasCRLF] in Hp. apply orb_false_iff in Hp. apply Hp.
  - destruct p as [|b' p]; [reflexivity|].
    assert (Hp' : hasCRLF (b' :: p) = false ∧ ¬ (b = CR ∧ b' = LF)).
    { cbn [hasCRLF] in Hp. apply orb_false_iff in Hp. destruct Hp as [H1 H2].
      split; [exact H2|]. apply bool_decide_eq_false in H1. exact H1. }
    destruct Hp' as [Hp' Hne].
    specialize (IH (S k) Hp'). revert IH. cbn [chunked].
    destruct (decide (S (S k) = 76%nat)); intros IH;
      cbn [stripCRLF]; rewrite decide_False by exact Hne;
      f_equal; exact IH.
Qed.

(** C8. Whatever writes a fresh chunk writer over a buffer receives, and
    however they are cut, every write returns without an error, the close
    call that follows returns without an error and appends exactly one
    CRLF to what the sink held (also when the current line is empty), and
    no line of the bytes the sink then holds, split at the CRLFs, is
    longer than 76 bytes. *)
Theorem chunkWriter_lines_at_most_76 (ps : list (list byte)) :
  ∃ c c' : chunkWriter.t Buffer,
    WriteAll (new ([] : Buffer)) ps = Returns (c, None)
    ∧ Close c = (c', None)
    ∧ w c' = w c ++ [CR; LF]
    ∧ err c' = Some errClosed
    ∧ Forall (λ l, (length l ≤ Z.to_nat maxLineLength)%nat) (splitCRLF (w c')).
Proof.
  pose proof (WriteAll_Buffer ps (new []) eq_refl) as Hrun.
  cbn [new n w] in Hrun. specialize (Hrun ltac:(lia)).
  eexists. eexists. split; [exact Hrun|].
  unfold Close. cbn [err w n io.WriteString Buffer_Writer].
  rewrite bytes_of_lineEnding.
  split; [reflexivity|]. split; [reflexivity|]. split; [reflexivity|].
  cbn [w app]. change (Z.to_nat 0) with 0%nat.
  change (Z.to_nat maxLineLength) with 76%nat.
  apply (splitCRLF_chunked (length (concat ps))); simpl; lia.
Qed.

(** C9, as the claim words it, does not hold: the two bytes CR LF,
    written in the two bursts [CR] and [LF], are accepted, and removing
    every CRLF from what the buffer then holds removes them too; what is
    left is not the input. *)
Lemma chunkWriter_strip_drops_payload_CRLF :
  ∃ c : chunkWriter.t Buffer,
    WriteAll (new ([] : Buffer)) [[CR]; [LF]] = Returns (c, None)
    ∧ stripCRLF (w c) = []
    ∧ stripCRLF (w c) ≠ concat [[CR]; [LF]].
Proof.
  eexists. split; [vm_compute; reflexivity|]. split; [reflexivity|discriminate].
Qed.

(** C9, amended.  For every byte sequence that holds no CR immediately
    followed by LF, and every way of cutting it into write calls [ps], a
    fresh chunk writer over a buffer returns from every write without an
    error, what the buffer holds does not depend on the cuts, and
    removing every CRLF from it gives back exactly the bytes written. *)
Theorem chunkWriter_strip_roundtrip_without_payload_CRLF (ps : list (list byte)) :
  hasCRLF (concat ps) = false →
  ∃ c : chunkWriter.t Buffer,
    WriteAll (new ([] : Buffer)) ps = Returns (c, None)
    ∧ w c = chunked 0 (concat ps)
    ∧ stripCRLF (w c) = concat ps.
Proof.
  intros Hp.
  pose proof (WriteAll_Buffer ps (new []) eq_refl) as Hrun.
  cbn [new n w] in Hrun. specialize (Hrun ltac:(lia)).
  eexists. split; [exact Hrun|]. cbn [w app].
  change (Z.to_nat 0) with 0%nat. split; [reflexivity|].
  apply stripCRLF_chunked_open. exact Hp.
Qed.

End ChunkWriterClaims.

Lemma chunkWriter_strip_roundtrip_without_payload_CRLF_witness :
  ∃ c : chunkWriter.t Buffer,
    chunkWriter.WriteAll (chunkWriter.new ([] : Buffer))
      [repeat "x"%byte 75; [CR]; bytes_of "yz"; [LF]] = Returns (c, None)
    ∧ chunkWriter.w c
      = chunked 0 (concat [repeat "x"%byte 75; [CR]; bytes_of "yz"; [LF]])
    ∧ stripCRLF (chunkWriter.w c)
      = concat [repeat "x"%byte 75; [CR]; bytes_of "yz"; [LF]].
Proof.
  apply (chunkWriter_strip_roundtrip_without_payload_CRLF
           [repeat "x"%byte 75; [CR]; bytes_of "yz"; [LF]]).
  vm_compute. reflexivity.
Defined.

(** ** The trim reader *)

Section TrimReader.

(** Every call trims what the underlying call delivered, whatever was
    delivered before. *)
Lemma trimReader_Read_trims {R} `{!io.Reader R} (tr : trimReader.t R) (n : nat) :
  trimReader.Read tr n =
    (trimReader.mk (io.Read (trimReader.rd tr) n).1,
     (TrimLeftSpace (io.Read (trimReader.rd tr) n).2.1,
      (io.Read (trimReader.rd tr) n).2.2)).
Proof.
  unfold trimReader.Read.
  destruct (io.Read (trimReader.rd tr) n) as [r [data e]]. reflexivity.
Qed.

Lemma ReadCalls_concat {R} `{!io.Reader R} (sizes : list nat) : ∀ r : R,
  ReadCalls r sizes = concat (ReadChunks r sizes).
Proof.
  induction sizes as [|n sizes IH]; intros r; [reflexivity|].
  cbn [ReadCalls ReadChunks]. destruct (io.Read r n) as [r' [data e]].
  cbn [concat]. rewrite IH. reflexivity.
Qed.

(** What the consumer of a trim reader receives: the result of every
    underlying call, each trimmed on the left. *)
Lemma ReadChunks_trimReader {R} `{!io.Reader R} (sizes : list nat) : ∀ r : R,
  ReadChunks (trimReader.mk r) sizes = TrimLeftSpace <$> ReadChunks r sizes.
Proof.
  induction sizes as [|n sizes IH]; intros r; [reflexivity|].
  cbn [ReadChunks io.Read trimReader.Reader]. unfold trimReader.Read.
  cbn [trimReader.rd]. destruct (io.Read r n) as [r' [data e]].
  cbn [fmap list_fmap]. rewrite IH. reflexivity.
Qed.

(** C6. The stream ["a b"], read through the size cap in three calls of
    one byte, arrives whole; read through the trim reader on top of the
    cap it arrives as ["ab"]: the space that starts the second call is
    dropped although ["a"] was delivered before it.  The same happens to
    a source that delivers ["Subject: a"] and then [" b"] to calls with
    a buffer of 4096 bytes. *)
Theorem trimReader_drops_space_inside_stream :
  ReadCalls (LimitReader (bytes_of "a b" : bytesReader.t) 100) [1; 1; 1]%nat
    = bytes_of "a b"
  ∧ ReadCalls (trimReader.mk (LimitReader (bytes_of "a b" : bytesReader.t) 100))
              [1; 1; 1]%nat
    = bytes_of "ab"
  ∧ ReadCalls (trimReader.mk
                 (LimitReader ([bytes_of "Subject: a"; bytes_of " b"] : chunkReader.t)
                              DefaultEmailSize))
              [4096; 4096]%nat
    = bytes_of "Subject: ab".
Proof. repeat split; vm_compute; reflexivity. Qed.

End TrimReader.

(** ** The Message-Id generator *)

Section MessageID.

Lemma messageID_ts_irrelevant (env : Env) (e : Email.t) (ts1 ts2 : time.Time) :
  messageID env e ts1 = messageID env e ts2.
Proof. reflexivity. Qed.

(** C1. Two timestamps ten minutes apart lie in different five-minute
    buckets, whether the bucket is found by [Round] or by rounding down,
    and yet the Message-Id generated for one message at the two times is
    the same: the bucket is formatted and never written to the hash. *)
Theorem messageID_equal_in_different_buckets (env : Env) (e : Email.t) :
  time.Round 0 (5 * time.Minute) ≠ time.Round (10 * time.Minute) (5 * time.Minute)
  ∧ 0 `div` (5 * time.Minute) ≠ (10 * time.Minute) `div` (5 * time.Minute)
  ∧ messageID env e 0 = messageID env e (10 * time.Minute).
Proof.
  split; [vm_compute; discriminate|].
  split; [vm_compute; discriminate|].
  apply messageID_ts_irrelevant.
Qed.

End MessageID.

(** ** The header assembler *)

Section MsgHeaders.

Context (env : Env) (now : time.Time).

(** With a nil [Headers] map an empty sender is refused. *)
Lemma msgHeaders_nil_Headers_empty_From (e : Email.t) :
  Email.Headers e = None → Email.From e = "" →
  msgHeaders env e now = inl errFromEmpty.
Proof.
  intros Hh Hf. unfold msgHeaders. rewrite Hh, Hf.
  destruct (negb (textproto.has ∅ to) && (0 <? len (Email.To e)));
  destruct (_ && (0 <? len (Email.CC e)));
  destruct (_ && negb (bool_decide (Email.Subject e = "")));
  reflexivity.
Qed.

Lemma has_insert (m : MIMEHeader) (k k' : string) (v : list string) :
  textproto.has (<[k := v]> m) k' = bool_decide (k = k') || textproto.has m k'.
Proof.
  unfold textproto.has. destruct (decide (k = k')) as [->|Hne].
  - rewrite lookup_insert_eq, (bool_decide_eq_true_2 (k' = k')) by done.
    apply bool_decide_eq_true_2. eauto.
  - rewrite lookup_insert_ne, (bool_decide_eq_false_2 (k = k')) by done.
    reflexivity.
Qed.

(** The last loop of [msgHeaders] adds the fields of [hs] that [res]
    does not have and changes no field that [res] has. *)
Lemma merge_lookup (res hs : MIMEHeader) (k : string) :
  map_fold (λ field vals res,
              if negb (textproto.has res field) then <[field := vals]> res else res)
           res hs !! k
  = match res !! k with Some v => Some v | None => hs !! k end.
Proof.
  revert k.
  apply (map_fold_weak_ind
           (λ r (m : MIMEHeader),
              ∀ k, r !! k = match res !! k with Some v => Some v | None => m !! k end)).
  - intros k. rewrite lookup_empty. destruct (res !! k); reflexivity.
  - intros i x m r Hi IH k. unfold textproto.has.
    case_bool_decide as Hr; cbn [negb].
    + destruct Hr as [v Hv]. destruct (decide (i = k)) as [->|Hne].
      * rewrite Hv. rewrite IH, Hi in Hv. destruct (res !! k); [congruence|discriminate].
      * rewrite lookup_insert_ne by done. apply IH.
    + destruct (decide (i = k)) as [->|Hne].
      * rewrite !lookup_insert_eq.
        assert (Hn : r !! k = None).
        { destruct (r !! k); [exfalso; apply Hr; eauto | done]. }
        rewrite IH, Hi in Hn. destruct (res !! k); [discriminate|reflexivity].
      * rewrite !lookup_insert_ne by done. apply IH.
Qed.

(** The assembler on a [Headers] map that is not nil: it never fails,
    each of To, Cc, From, Subject, Date and Message-Id holds what
    [Headers] holds for it, which is nothing when [Headers] lacks the
    field, Mime-Version is ["1.0"], and the other fields of [Headers] are
    taken over. *)
Lemma msgHeaders_nonnil_Headers (e : Email.t) (hs : MIMEHeader) :
  Email.Headers e = Some hs →
  ∃ res,
    msgHeaders env e now = inr res
    ∧ (∀ k, k ∈ [to; cc; from; subject; date; msgID] →
            res !! k = Some (textproto.index hs k))
    ∧ res !! mimeVers = Some ["1.0"]
    ∧ (∀ k, k ∉ [to; cc; from; subject; date; msgID; mimeVers] →
            res !! k = hs !! k).
Proof.
  intros Hh. unfold msgHeaders. rewrite Hh. cbn [foldl].
  set (res0 := <[msgID := _]> (<[date := _]> (<[subject := _]>
                 (<[from := _]> (<[cc := _]> (<[to := _]> (∅ : MIMEHeader))))))).
  assert (H6 : ∀ k, k ∈ [to; cc; from; subject; date; msgID] →
                    res0 !! k = Some (textproto.index hs k)).
  { intros k Hk. subst res0.
    repeat (apply elem_of_cons in Hk as [->|Hk]);
      [.. | apply elem_of_nil in Hk; destruct Hk];
      repeat (rewrite lookup_insert_eq || rewrite lookup_insert_ne by done);
      reflexivity. }
  assert (Hhas : ∀ k, k ∈ [to; cc; from; subject; date; msgID] →
                      textproto.has res0 k = true).
  { intros k Hk. apply bool_decide_eq_true_2. rewrite (H6 k Hk). eauto. }
  rewrite (Hhas to) by (rewrite !elem_of_cons; auto 10). cbn [negb andb].
  rewrite (Hhas cc) by (rewrite !elem_of_cons; auto 10). cbn [negb andb].
  rewrite (Hhas subject) by (rewrite !elem_of_cons; auto 10). cbn [negb andb].
  rewrite (Hhas from) by (rewrite !elem_of_cons; auto 10). cbn [negb andb].
  rewrite (Hhas date) by (rewrite !elem_of_cons; auto 10). cbn [negb].
  rewrite (Hhas msgID) by (rewrite !elem_of_cons; auto 10). cbn [negb].
  assert (Hmv : textproto.has res0 mimeVers = false).
  { apply bool_decide_eq_false_2. subst res0.
    rewrite !lookup_insert_ne by done. rewrite lookup_empty.
    intros [? ?]. discriminate. }
  rewrite Hmv. cbn [negb].
  eexists. split; [reflexivity|]. unfold textproto.Set_.
  split; [|split].
  - intros k Hk. rewrite merge_lookup.
    rewrite lookup_insert_ne.
    + rewrite (H6 k Hk). reflexivity.
    + intros <-. repeat (apply elem_of_cons in Hk as [Hk|Hk]; [discriminate|]).
      apply elem_of_nil in Hk. destruct Hk.
  - rewrite merge_lookup, lookup_insert_eq. reflexivity.
  - intros k Hk. repeat apply not_elem_of_cons in Hk as [? Hk].
    rewrite merge_lookup. subst res0.
    rewrite !lookup_insert_ne by congruence. rewrite lookup_empty. reflexivity.
Qed.

(** The assembler on a nil [Headers] map, for a sender that is not
    empty: it returns the fields derived from the message and the
    defaults. *)
Lemma msgHeaders_nil_Headers (e : Email.t) :
  Email.Headers e = None → Email.From e ≠ "" →
  ∃ res,
    msgHeaders env e now = inr res
    ∧ res !! from = Some [Email.From e]
    ∧ res !! to = (if 0 <? len (Email.To e)
                   then Some [String.concat ", " (Email.To e)] else None)
    ∧ res !! cc = (if 0 <? len (Email.CC e)
                   then Some [String.concat ", " (Email.CC e)] else None)
    ∧ res !! subject = (if bool_decide (Email.Subject e = "") then None
                        else Some [Email.Subject e])
    ∧ res !! date = Some [Format env now time.RFC1123Z]
    ∧ res !! msgID = Some [messageID env e now]
    ∧ res !! mimeVers = Some ["1.0"].
Proof.
  intros Hh Hf. unfold msgHeaders. rewrite Hh.
  rewrite (bool_decide_eq_false_2 (Email.From e = "")) by exact Hf.
  unfold textproto.Set_.
  assert (He : ∀ k, textproto.has ∅ k = false).
  { intros k. apply bool_decide_eq_false_2. rewrite lookup_empty.
    intros [? ?]. discriminate. }
  destruct (0 <? len (Email.To e)); destruct (0 <? len (Email.CC e));
    destruct (bool_decide (Email.Subject e = ""));
    repeat (first [ rewrite has_insert
                  | rewrite He
                  | rewrite (bool_decide_eq_false_2 (_ = _)) by done
                  | rewrite (bool_decide_eq_true_2 (_ = _)) by done ];
            cbn [negb andb orb]);
    (eexists; split; [reflexivity|]);
    repeat split;
    repeat (rewrite lookup_insert_eq || rewrite lookup_insert_ne by done);
    rewrite ?lookup_empty; reflexivity.
Qed.

(** The encoder passes the assembler's error on. *)
Lemma writeTo_msgHeaders_error {W} `{!io.Writer W} (e : Email.t) (w : W) (err : error) :
  msgHeaders env e now = inl err → writeTo env now e w = Returns (w, Some err).
Proof. intros Hm. unfold writeTo. rewrite Hm. reflexivity. Qed.

(** C2. The message [noSender] has an empty sender and a [Headers] map
    that is not nil and holds no From; the assembler returns a header
    set, in which From is present without a value, instead of the
    required-field error, and the encoder writes the message to a buffer
    and returns no error. *)
Theorem msgHeaders_accepts_empty_From :
  Email.From noSender = ""
  ∧ Email.Headers noSender = Some ∅
  ∧ match msgHeaders env noSender now with
    | inr res => res !! from = Some []
    | inl _ => False
    end
  ∧ match WriteTo exampleEnv now noSender ([] : Buffer) with
    | Returns (_, (_, err)) => err = None
    | _ => False
    end.
Proof.
  split; [reflexivity|]. split; [reflexivity|].
  split; vm_compute; reflexivity.
Qed.

(** C5. Under a [Headers] map that is not nil and lacks To, Cc, Subject,
    From, Date and Message-Id, the assembled set holds each of them
    without a value: nothing is derived from the structured fields, no
    date and no Message-Id are generated.  And a Mime-Version given in
    [Headers] is replaced by ["1.0"]. *)
Theorem msgHeaders_nonnil_Headers_derives_nothing :
  match msgHeaders env withMailer now with
  | inr res =>
    res !! to = Some [] ∧ res !! cc = Some [] ∧ res !! subject = Some []
    ∧ res !! from = Some [] ∧ res !! date = Some [] ∧ res !! msgID = Some []
    ∧ res !! mimeVers = Some ["1.0"] ∧ res !! "X-Mailer" = Some ["m"]
  | inl _ => False
  end
  ∧ match msgHeaders env withMimeVersion now with
    | inr res => res !! mimeVers = Some ["1.0"]
    | inl _ => False
    end.
Proof. split; vm_compute; [repeat split; reflexivity | reflexivity]. Qed.

End MsgHeaders.

(** ** The encoder's byte count *)

Section CountWriter.

Context (env : Env) {W : Type} `{!io.Writer W}.

(** Nothing that [writeHeader] writes to a count writer is counted: all
    of it goes through [WriteString]. *)
Lemma writeHeader_value_not_counted (c : countWriter.t W) (field subval : string) :
  countWriter.n (writeHeader_value env c field subval) = countWriter.n c.
Proof.
  unfold writeHeader_value.
  cbn [io.WriteString countWriter.Writer]. unfold countWriter.WriteString.
  destruct (io.WriteString (countWriter.w c) field) as [w1 r1]. cbn [countWriter.w countWriter.n].
  destruct (io.WriteString w1 ": ") as [w2 r2]. cbn [countWriter.w countWriter.n].
  destruct (bool_decide (field = contentType) || bool_decide (field = contentDispo)).
  - destruct (io.WriteString w2 subval) as [w3 r3]. cbn [countWriter.w countWriter.n].
    destruct (io.WriteString w3 lineEnding) as [w4 r4]. reflexivity.
  - destruct (io.WriteString w2 (QEncode env subval)) as [w3 r3]. cbn [countWriter.w countWriter.n].
    destruct (io.WriteString w3 lineEnding) as [w4 r4]. reflexivity.
Qed.

Lemma writeHeader_not_counted (c : countWriter.t W) (header : MIMEHeader) :
  countWriter.n (writeHeader env c header) = countWriter.n c.
Proof.
  unfold writeHeader. generalize (map_to_list header). intros l. revert c.
  induction l as [|[field vals] l IH]; intros c; [reflexivity|].
  cbn [foldl]. rewrite IH. clear IH. revert c.
  induction vals as [|v vals IH]; intros c; [reflexivity|].
  cbn [foldl]. rewrite IH. apply writeHeader_value_not_counted.
Qed.

End CountWriter.

Section CountWriterOnBuffer.

Context (env : Env) (now : time.Time).

Lemma wrap64_le (z : Z) : - 2 ^ 63 ≤ z → - 2 ^ 63 ≤ wrap64 z ≤ z.
Proof.
  intros Hz. unfold wrap64.
  pose proof (Z.mod_pos_bound (z + 2 ^ 63) (2 ^ 64) ltac:(lia)) as Hb.
  pose proof (Z.mod_le (z + 2 ^ 63) (2 ^ 64) ltac:(lia) ltac:(lia)) as Hl.
  lia.
Qed.

(** Over a buffer, [writeHeader] appends to the sink and leaves the
    count alone. *)
Lemma writeHeader_Buffer (header : MIMEHeader) (c : countWriter.t Buffer) :
  ∃ X, writeHeader env c header
       = countWriter.mk (countWriter.w c ++ X) (countWriter.n c).
Proof.
  unfold writeHeader. generalize (map_to_list header). intros l. revert c.
  induction l as [|[field vals] l IH]; intros c.
  - exists []. destruct c. cbn. rewrite app_nil_r. reflexivity.
  - cbn [foldl].
    assert (Hv : ∃ X, foldl (λ w subval, writeHeader_value env w field subval) c vals
                      = countWriter.mk (countWriter.w c ++ X) (countWriter.n c)).
    { clear IH. revert c. induction vals as [|v vals IHv]; intros c.
      - exists []. destruct c. cbn. rewrite app_nil_r. reflexivity.
      - cbn [foldl].
        destruct (IHv (writeHeader_value env c field v)) as [X ->].
        unfold writeHeader_value.
        cbn [io.WriteString countWriter.Writer countWriter.WriteString
             Buffer_Writer countWriter.w countWriter.n].
        destruct (bool_decide (field = contentType) || bool_decide (field = contentDispo));
          cbn [io.WriteString countWriter.Writer countWriter.WriteString
               Buffer_Writer countWriter.w countWriter.n];
          rewrite <- !app_assoc; eexists; reflexivity. }
    destruct Hv as [X ->]. destruct (IH (countWriter.mk (countWriter.w c ++ X) (countWriter.n c)))
      as [Y ->].
    cbn [countWriter.w countWriter.n]. rewrite <- app_assoc. eexists. reflexivity.
Qed.

(** A message without bodies and attachments, written to a buffer: no
    error, and the count returned is smaller than the number of bytes
    the buffer has received, whatever the environment. *)
Lemma WriteTo_Buffer_undercounts (e : Email.t) (hdrs : MIMEHeader) (b0 : Buffer) :
  msgHeaders env e now = inr hdrs →
  Email.Text e = [] → Email.HTML e = [] → Email.Attachments e = [] →
  ∃ b n, WriteTo env now e b0 = Returns (b0 ++ b, (n, None)) ∧ n < len b.
Proof.
  intros Hm Ht Hh Ha. unfold WriteTo, writeTo. rewrite Hm, Ht, Hh, Ha.
  destruct (writeHeader_Buffer
              (textproto.Set_ hdrs contentType
                 ("multipart/mixed;" ++ CRLF ++ " boundary="
                    ++ multipart.Boundary (multipart.NewWriter (mixedBoundary env))))
              (countWriter.mk b0 0)) as [X ->].
  cbn [io.WriteString io.Write countWriter.Writer countWriter.WriteString
       countWriter.Write Buffer_Writer countWriter.w countWriter.n].
  change (len ([] : list byte)) with 0. change (len ([] : list Attachment.t)) with 0.
  cbn [Z.ltb Z.compare orb].
  unfold multipart.Close, multipart.NewWriter.
  cbn [multipart.lastpart multipart.boundary multipart.Boundary
       io.WriteString io.Write countWriter.Writer countWriter.WriteString
       countWriter.Write Buffer_Writer countWriter.w countWriter.n].
  rewrite <- !app_assoc. eexists. eexists. split; [reflexivity|].
  set (L1 := len (bytes_of ("--" ++ mixedBoundary env ++ CRLF))).
  set (L2 := len (bytes_of (CRLF ++ "--" ++ mixedBoundary env ++ "--" ++ CRLF))).
  assert (H1 : 0 ≤ L1) by (subst L1; unfold len; lia).
  assert (H2 : 0 ≤ L2) by (subst L2; unfold len; lia).
  pose proof (wrap64_le (0 + L1) ltac:(lia)) as [Ha1 Hb1].
  pose proof (wrap64_le (wrap64 (0 + L1) + L2) ltac:(lia)) as [Ha2 Hb2].
  unfold len at 1. rewrite !length_app. rewrite bytes_of_lineEnding.
  fold L1 L2. unfold len in L1, L2. cbn [length]. lia.
Qed.

End CountWriterOnBuffer.

(** C4. Encoding the message [senderOnly] into an empty buffer returns no
    error and the count 132, while the buffer has received 381 bytes: the
    header lines and the blank line after them are written and not
    counted. *)
Theorem WriteTo_count_leaves_out_header (now : time.Time) :
  match WriteTo exampleEnv now senderOnly ([] : Buffer) with
  | Returns (b, (n, err)) => err = None ∧ n = 132 ∧ len b = 381
  | _ => False
  end.
Proof. vm_compute. repeat split; reflexivity. Qed.

(** ** The decoder *)

Section DecoderLemmas.

Context (ParseMediaType : string → error + (string * gmap string string)).

(** The only change [parseMediaType] makes to the map: the default is
    set when the field is absent. *)
Lemma parseMediaType_map (p : MIMEHeader) :
  (parseMediaType ParseMediaType p).1 =
    if textproto.has p contentType then p
    else textproto.Set_ p contentType defaultContentType.
Proof.
  unfold parseMediaType.
  destruct (textproto.has p contentType); cbn [negb];
    destruct (ParseMediaType _) as [err|[mtyp params]]; reflexivity.
Qed.

Lemma parseMIMEParts_map (p : MIMEHeader) (r : reader) :
  (parseMIMEParts ParseMediaType p r).1 = (parseMediaType ParseMediaType p).1.
Proof.
  destruct r as [content nextParts]. cbn [parseMIMEParts].
  destruct (parseMediaType ParseMediaType p) as [p' [err|[mtyp bdy]]]; [reflexivity|].
  destruct (String.prefix "multipart/" mtyp).
  - destruct (bool_decide (bdy = "")); [reflexivity|].
    destruct (parseMultipart_loop _ _ _); reflexivity.
  - destruct content; reflexivity.
Qed.

(** [parseMIMEParts] is the source's function: on a multipart type it
    is [parseMultipart]. *)
Lemma parseMIMEParts_eq (p : MIMEHeader) (r : reader) :
  parseMIMEParts ParseMediaType p r =
    let '(p, res) := parseMediaType ParseMediaType p in
    match res with
    | inl err => (p, inl err)
    | inr (mtyp, bdy) =>
      if String.prefix "multipart/" mtyp then
        match parseMultipart ParseMediaType r bdy with
        | inl err => (p, inl err)
        | inr sps => (p, inr sps)
        end
      else
        match r with
        | Reader (inl err) _ => (p, inl err)
        | Reader (inr b) _ => (p, inr [mkpart mtyp b])
        end
    end.
Proof.
  destruct r as [content nextParts]. cbn [parseMIMEParts]. unfold parseMultipart.
  destruct (parseMediaType ParseMediaType p) as [p' [err|[mtyp bdy]]]; reflexivity.
Qed.

(** The loop over the parts leaves everything but the two bodies alone. *)
Lemma foldl_classify_Headers (ps : list part) : ∀ e : Email.t,
  Email.Headers (foldl classify e ps) = Email.Headers e
  ∧ Email.From (foldl classify e ps) = Email.From e
  ∧ Email.Subject (foldl classify e ps) = Email.Subject e.
Proof.
  induction ps as [|p ps IH]; intros e; [done|].
  cbn [foldl]. destruct (IH (classify e p)) as (-> & -> & ->).
  unfold classify. repeat case_bool_decide; done.
Qed.

(** Each body is that of the last part of its type, if there is one. *)
Lemma foldl_classify_bodies (ps : list part) : ∀ e : Email.t,
  Email.Text (foldl classify e ps)
    = default (Email.Text e) (last_of_type "text/plain" ps)
  ∧ Email.HTML (foldl classify e ps)
    = default (Email.HTML e) (last_of_type "text/html" ps).
Proof.
  unfold last_of_type.
  induction ps as [|p ps IH]; intros e; [done|].
  cbn [foldl]. destruct (IH (classify e p)) as [-> ->]. clear IH.
  unfold classify. rewrite !filter_cons.
  generalize (filter (λ p0, ctyp p0 = "text/plain") ps) as l1.
  generalize (filter (λ p0, ctyp p0 = "text/html") ps) as l2. intros l2 l1.
  repeat case_bool_decide; repeat case_decide; try congruence;
    rewrite ?last_cons; destruct (last l1), (last l2); done.
Qed.

Section NewWithSize.
Context {R0 : Type} `{!io.Reader R0}.
Context (NewReader : trimReader.t (LimitedReader.t R0) → tpReader.t).

(** What a successful decode is made of. *)
Lemma NewWithSize_inr (r : R0) (maxSize : Z) (e : Email.t) :
  NewWithSize ParseMediaType NewReader r maxSize = inr e →
  let tp := NewReader (trimReader.mk (LimitReader r maxSize)) in
  ∃ hdrs ps,
    let kept := foldl (λ hdrs hv, delete hv hdrs) hdrs [subject; to; cc; bcc] in
    tpReader.ReadMIMEHeader tp = inr hdrs
    ∧ (parseMIMEParts ParseMediaType kept (tpReader.R tp)).2 = inr ps
    ∧ e = foldl classify
            (Email.mk (textproto.Get hdrs from) (textproto.index hdrs to)
                      (textproto.index hdrs cc) (textproto.index hdrs bcc)
                      (textproto.Get hdrs subject) [] []
                      (Some (if textproto.has kept contentType then kept
                             else textproto.Set_ kept contentType defaultContentType))
                      [])
            ps.
Proof.
  unfold NewWithSize. cbv zeta.
  destruct (tpReader.ReadMIMEHeader _) as [err|hdrs]; [discriminate|].
  set (kept := foldl _ hdrs _).
  pose proof (parseMIMEParts_map kept
                (tpReader.R (NewReader (trimReader.mk (LimitReader r maxSize))))) as Hmap.
  rewrite parseMediaType_map in Hmap.
  destruct (parseMIMEParts _ kept _) as [hdrs' [err|ps]] eqn:Hp; [discriminate|].
  cbn [fst] in Hmap. subst hdrs'.
  intros [= <-]. exists hdrs, ps. fold kept. rewrite Hp. done.
Qed.

(** The header set of a decoded message: Subject, To, Cc and Bcc are
    gone, From is still there, Content-Type holds the default when the
    input had none, and every other field is as it was read. *)
Lemma NewWithSize_Headers (r : R0) (maxSize : Z) (e : Email.t) (hdrs : MIMEHeader) :
  tpReader.ReadMIMEHeader (NewReader (trimReader.mk (LimitReader r maxSize))) = inr hdrs →
  NewWithSize ParseMediaType NewReader r maxSize = inr e →
  ∃ h, Email.Headers e = Some h
       ∧ h !! subject = None ∧ h !! to = None ∧ h !! cc = None ∧ h !! bcc = None
       ∧ h !! from = hdrs !! from
       ∧ h !! contentType
         = Some (default [defaultContentType] (hdrs !! contentType))
       ∧ ∀ k, k ∉ [subject; to; cc; bcc; contentType] → h !! k = hdrs !! k.
Proof.
  intros Hh Hd. apply NewWithSize_inr in Hd. cbv zeta in Hd.
  destruct Hd as (hdrs' & ps & Hh' & _ & ->).
  rewrite Hh in Hh'. injection Hh' as <-.
  destruct (foldl_classify_Headers ps
    (Email.mk (textproto.Get hdrs from) (textproto.index hdrs to)
       (textproto.index hdrs cc) (textproto.index hdrs bcc)
       (textproto.Get hdrs subject) [] []
       (Some (if textproto.has (foldl (λ hdrs hv, delete hv hdrs) hdrs [subject; to; cc; bcc]) contentType
              then foldl (λ hdrs hv, delete hv hdrs) hdrs [subject; to; cc; bcc]
              else textproto.Set_ (foldl (λ hdrs hv, delete hv hdrs) hdrs [subject; to; cc; bcc])
                     contentType defaultContentType))
       [])) as (-> & _ & _).
  cbn [Email.Headers foldl]. eexists. split; [reflexivity|].
  set (d := delete bcc (delete cc (delete to (delete subject hdrs)))).
  assert (Hct : d !! contentType = hdrs !! contentType).
  { subst d. rewrite !lookup_delete_ne by done. reflexivity. }
  unfold textproto.has, textproto.Set_.
  case_bool_decide as Hhas; rewrite Hct in Hhas.
  - destruct Hhas as [v Hv]. rewrite Hct, Hv. subst d.
    repeat split;
      repeat (rewrite lookup_delete_eq || rewrite lookup_delete_ne by done);
      try reflexivity.
    intros k Hnot. repeat apply not_elem_of_cons in Hnot as [? Hnot].
    rewrite !lookup_delete_ne by congruence. reflexivity.
  - assert (Hn : hdrs !! contentType = None).
    { destruct (hdrs !! contentType); [exfalso; apply Hhas; eauto | done]. }
    rewrite lookup_insert_eq, Hn. subst d.
    repeat split;
      rewrite ?lookup_insert_ne by done;
      repeat (rewrite lookup_delete_eq || rewrite lookup_delete_ne by done);
      try reflexivity.
    intros k Hnot. repeat apply not_elem_of_cons in Hnot as [? Hnot].
    rewrite lookup_insert_ne by congruence.
    rewrite !lookup_delete_ne by congruence. reflexivity.
Qed.

End NewWithSize.

End DecoderLemmas.

Section DecoderClaims.

(** C3, as stated, fails on the signed message: decoding succeeds, the
    leaves are the signed text (of the default type text/plain), the
    signature and the text after the signed part, the first text/plain
    leaf is the signed text, and the plain-text body of the message is
    another one. *)
Lemma decode_first_text_leaf_not_kept :
  match New ParseMediaType_examples exampleNewReader
            (bytes_of rawSigned : bytesReader.t) with
  | inr e =>
    (parseMIMEParts ParseMediaType_examples
       (foldl (λ hdrs hv, delete hv hdrs) signedHeader [subject; to; cc; bcc])
       (tpReader.R signedReader)).2 = inr signedLeaves
    ∧ first_of_type "text/plain" signedLeaves = Some twas
    ∧ Email.Text e ≠ twas
  | inl _ => False
  end.
Proof.
  vm_compute. split; [reflexivity|]. split; [reflexivity|]. discriminate.
Qed.

(** C3, amended. In every message that decoding returns, the plain-text
    body is the body of the last leaf whose type is text/plain and the
    HTML body that of the last leaf whose type is text/html, in the order
    of the flattened list of leaves; a body without such a leaf is
    empty. *)
Theorem decode_last_leaf_wins
    (ParseMediaType : string → error + (string * gmap string string))
    {R0 : Type} `{!io.Reader R0}
    (NewReader : trimReader.t (LimitedReader.t R0) → tpReader.t)
    (r : R0) (maxSize : Z) (e : Email.t) :
  NewWithSize ParseMediaType NewReader r maxSize = inr e →
  ∃ hdrs ps,
    tpReader.ReadMIMEHeader (NewReader (trimReader.mk (LimitReader r maxSize)))
      = inr hdrs
    ∧ (parseMIMEParts ParseMediaType
         (foldl (λ hdrs hv, delete hv hdrs) hdrs [subject; to; cc; bcc])
         (tpReader.R (NewReader (trimReader.mk (LimitReader r maxSize))))).2
      = inr ps
    ∧ Email.Text e = default [] (last_of_type "text/plain" ps)
    ∧ Email.HTML e = default [] (last_of_type "text/html" ps).
Proof.
  intros Hd. apply NewWithSize_inr in Hd. cbv zeta in Hd.
  destruct Hd as (hdrs & ps & Hh & Hp & ->).
  exists hdrs, ps. split; [exact Hh|]. split; [exact Hp|].
  apply foldl_classify_bodies.
Qed.

Lemma decode_last_leaf_wins_witness :
  ∃ hdrs ps,
    tpReader.ReadMIMEHeader
      (exampleNewReader
         (trimReader.mk (LimitReader (bytes_of rawSigned : bytesReader.t) DefaultEmailSize)))
      = inr hdrs
    ∧ (parseMIMEParts ParseMediaType_examples
         (foldl (λ hdrs hv, delete hv hdrs) hdrs [subject; to; cc; bcc])
         (tpReader.R
            (exampleNewReader
               (trimReader.mk
                  (LimitReader (bytes_of rawSigned : bytesReader.t) DefaultEmailSize))))).2
      = inr ps
    ∧ Email.Text signedEmail = default [] (last_of_type "text/plain" ps)
    ∧ Email.HTML signedEmail = default [] (last_of_type "text/html" ps).
Proof.
  apply (decode_last_leaf_wins ParseMediaType_examples exampleNewReader
           (bytes_of rawSigned : bytesReader.t) DefaultEmailSize signedEmail).
  vm_compute. reflexivity.
Defined.

(** The assertions of the repository's decoder tests, on the model. *)
Example TestNonMultipartEmailFromReader :
  match New ParseMediaType_examples exampleNewReader
            (bytes_of rawPlain : bytesReader.t) with
  | inr e =>
    Email.Subject e = "Example Subject (no MIME Type)"
    ∧ Email.Text e = bytes_of "This is a test message!"
    ∧ (h ← Email.Headers e; h !! msgID) = Some ["<foobar@example.com>"]
  | inl _ => False
  end.
Proof. vm_compute. repeat split; reflexivity. Qed.

Example TestMultipartNoContentType :
  match New ParseMediaType_examples exampleNewReader
            (bytes_of rawSigned : bytesReader.t) with
  | inr e => Email.Text e = bytes_of "Testing!"
  | inl _ => False
  end.
Proof. vm_compute. reflexivity. Qed.

(** C7. Decoding the plain message succeeds; Subject and To have left
    the header set of the message returned, From has not: it is in the
    sender field and still in the header set. *)
Theorem decode_leaves_From_in_Headers :
  match New ParseMediaType_examples exampleNewReader
            (bytes_of rawPlain : bytesReader.t) with
  | inr e =>
    Email.From e = "Foo Bar <foobar@example.com>"
    ∧ Email.Subject e = "Example Subject (no MIME Type)"
    ∧ (h ← Email.Headers e; h !! subject) = None
    ∧ (h ← Email.Headers e; h !! to) = None
    ∧ (h ← Email.Headers e; h !! from) = Some ["Foo Bar <foobar@example.com>"]
  | inl _ => False
  end.
Proof. vm_compute. repeat split; reflexivity. Qed.

(** A message without a Content-Type whose body can be read is decoded:
    the default type is not a multipart type, and the body is the
    plain-text body. *)
Lemma NewWithSize_no_Content_Type_returns
    (ParseMediaType : string → error + (string * gmap string string))
    {R0 : Type} `{!io.Reader R0}
    (NewReader : trimReader.t (LimitedReader.t R0) → tpReader.t)
    (r : R0) (maxSize : Z) (hdrs : MIMEHeader) (b : list byte)
    (nextParts : string → parts) (params : gmap string string) :
  NewReader (trimReader.mk (LimitReader r maxSize))
    = tpReader.mk (inr hdrs) (Reader (inr b) nextParts) →
  hdrs !! contentType = None →
  ParseMediaType defaultContentType = inr ("text/plain", params) →
  ∃ e, NewWithSize ParseMediaType NewReader r maxSize = inr e
       ∧ Email.Text e = b.
Proof.
  intros Htp Hct Hpmt. unfold NewWithSize. cbv zeta. rewrite Htp.
  cbn [tpReader.ReadMIMEHeader tpReader.R foldl parseMIMEParts].
  unfold parseMediaType.
  assert (Hhas : textproto.has (delete bcc (delete cc (delete to (delete subject hdrs))))
                   contentType = false).
  { unfold textproto.has. apply bool_decide_eq_false_2.
    rewrite !lookup_delete_ne by done. rewrite Hct. intros [? ?]. discriminate. }
  rewrite Hhas. cbn [negb].
  assert (Hget : ∀ m : MIMEHeader,
            textproto.Get (textproto.Set_ m contentType defaultContentType) contentType
            = defaultContentType).
  { intros m. unfold textproto.Get, textproto.Set_, textproto.index.
    rewrite lookup_insert_eq. reflexivity. }
  rewrite Hget, Hpmt.
  eexists. split; [reflexivity|]. reflexivity.
Qed.

(** C10. When the header block that was read has no Content-Type field,
    the header set of every message that decoding returns has one, and
    its value is the default, ["text/plain; charset=us-ascii"]. *)
Theorem decode_sets_default_Content_Type
    (ParseMediaType : string → error + (string * gmap string string))
    {R0 : Type} `{!io.Reader R0}
    (NewReader : trimReader.t (LimitedReader.t R0) → tpReader.t)
    (r : R0) (maxSize : Z) (hdrs : MIMEHeader) (e : Email.t) :
  tpReader.ReadMIMEHeader (NewReader (trimReader.mk (LimitReader r maxSize))) = inr hdrs →
  hdrs !! contentType = None →
  NewWithSize ParseMediaType NewReader r maxSize = inr e →
  ∃ h, Email.Headers e = Some h
       ∧ h !! contentType = Some [defaultContentType].
Proof.
  intros Hh Hct Hd.
  destruct (NewWithSize_Headers ParseMediaType NewReader r maxSize e hdrs Hh Hd)
    as (h & Hhe & _ & _ & _ & _ & _ & Hc & _).
  exists h. split; [exact Hhe|]. rewrite Hc, Hct. reflexivity.
Qed.

Lemma decode_sets_default_Content_Type_witness :
  ∃ h, Email.Headers bareEmail = Some h
       ∧ h !! contentType = Some [defaultContentType].
Proof.
  apply (decode_sets_default_Content_Type ParseMediaType_examples exampleNewReader
           (rawBare_after_blank_lines : bytesReader.t) DefaultEmailSize
           bareHeader bareEmail).
  - vm_compute. reflexivity.
  - vm_compute. reflexivity.
  - vm_compute. reflexivity.
Defined.

End DecoderClaims.

(** * Further properties of the package *)

(** ** The chunked-line writer *)

Section ChunkWriterMore.

Import chunkWriter.

(** X1. Once a chunk writer has been closed it is closed for good: every
    later write returns the writer's error and the count 0, a second
    close returns the same error, and neither touches the writer or its
    sink.  The error of a writer closed by this call is [errClosed]. *)
Theorem chunkWriter_rejects_after_Close {W : Type} `{!io.Writer W}
    (c : chunkWriter.t W) (p : list byte) :
  let c' := (Close c).1 in
  is_Some (err c')
  ∧ Write c' p = Returns (c', (0, err c'))
  ∧ Close c' = (c', err c')
  ∧ (err c = None → err c' = Some errClosed).
Proof.
  cbv zeta. unfold Close, Write. destruct (err c) as [e|] eqn:He.
  - cbn [fst]. rewrite He. repeat split; eauto. discriminate.
  - destruct (io.WriteString _ _) as [w1 [k e]]. cbn [fst err]. eauto.
Qed.

(** X2. Over a buffer, whatever was written before, a write of [p] returns
    the count [len(p)] and no error, and the column the writer keeps is
    the number of bytes written so far modulo 76. *)
Theorem chunkWriter_Write_returns_len (ps : list (list byte)) (p : list byte) :
  len p < 2 ^ 63 →
  ∃ c c' : chunkWriter.t Buffer,
    WriteAll (new ([] : Buffer)) ps = Returns (c, None)
    ∧ Write c p = Returns (c', (len p, None))
    ∧ n c = len (concat ps) `mod` 76
    ∧ n c' = len (concat ps ++ p) `mod` 76.
Proof.
  intros Hl.
  pose proof (WriteAll_Buffer ps (new []) eq_refl) as Hrun.
  cbn [new n w] in Hrun. specialize (Hrun ltac:(lia)).
  change (Z.to_nat 0) with 0%nat in Hrun. rewrite Nat.add_0_l in Hrun.
  eexists. pose proof (Nat.mod_upper_bound (length (concat ps)) 76 ltac:(lia)) as Hb.
  edestruct (Write_Buffer
               (mk ([] ++ chunked 0 (concat ps))
                   (Z.of_nat (length (concat ps) `mod` 76)) None) p eq_refl)
    as (cnt & Hw & Hcnt).
  { cbn [n]. lia. }
  rewrite (Hcnt Hl) in Hw. eexists.
  split; [exact Hrun|]. split; [exact Hw|]. cbn [n]. unfold len.
  split.
  - rewrite Nat2Z.inj_mod. reflexivity.
  - rewrite Nat2Z.id, length_app, Nat.Div0.add_mod_idemp_l, Nat2Z.inj_mod.
    reflexivity.
Qed.

Lemma chunkWriter_Write_returns_len_witness :
  ∃ c c' : chunkWriter.t Buffer,
    WriteAll (new ([] : Buffer)) [bytes_of "ab"; bytes_of "c"] = Returns (c, None)
    ∧ Write c (bytes_of "de") = Returns (c', (len (bytes_of "de"), None))
    ∧ n c = len (concat [bytes_of "ab"; bytes_of "c"]) `mod` 76
    ∧ n c' = len (concat [bytes_of "ab"; bytes_of "c"] ++ bytes_of "de") `mod` 76.
Proof.
  apply (chunkWriter_Write_returns_len [bytes_of "ab"; bytes_of "c"] (bytes_of "de")).
  vm_compute. reflexivity.
Defined.

(** X3. For a payload that holds no CR LF pair of its own, such as base64
    text, removing every CR LF pair from what the sink holds after the
    writes and the close gives the payload back. *)
Theorem chunkWriter_stripCRLF_roundtrip (ps : list (list byte)) :
  hasCRLF (concat ps) = false →
  ∃ c c' : chunkWriter.t Buffer,
    WriteAll (new ([] : Buffer)) ps = Returns (c, None)
    ∧ Close c = (c', None)
    ∧ stripCRLF (w c') = concat ps.
Proof.
  intros Hp.
  pose proof (WriteAll_Buffer ps (new []) eq_refl) as Hrun.
  cbn [new n w] in Hrun. specialize (Hrun ltac:(lia)).
  eexists. eexists. split; [exact Hrun|].
  unfold Close. cbn [err w n io.WriteString Buffer_Writer].
  rewrite bytes_of_lineEnding. split; [reflexivity|].
  cbn [w app]. apply stripCRLF_chunked. exact Hp.
Qed.

Lemma chunkWriter_stripCRLF_roundtrip_witness :
  ∃ c c' : chunkWriter.t Buffer,
    WriteAll (new ([] : Buffer)) [repeat "a"%byte 100; bytes_of "bc"] = Returns (c, None)
    ∧ Close c = (c', None)
    ∧ stripCRLF (w c') = concat [repeat "a"%byte 100; bytes_of "bc"].
Proof.
  apply (chunkWriter_stripCRLF_roundtrip [repeat "a"%byte 100; bytes_of "bc"]).
  vm_compute. reflexivity.
Defined.

End ChunkWriterMore.

(** ** The readers under the decoder *)

Section ReadersMore.

Lemma TrimLeftSpace_from_suffix (s : list byte) : ∀ skip : nat,
  TrimLeftSpace_from skip s `suffix_of` s.
Proof.
  induction s as [|b t IH]; intros skip; [apply suffix_nil|].
  cbn [TrimLeftSpace_from]. destruct skip as [|skip].
  - destruct (if utf8.byteZ b <? utf8.RuneSelf then _ else _) as [r wid].
    destruct (unicode.IsSpace r); [|reflexivity].
    apply suffix_cons_r, IH.
  - apply suffix_cons_r, IH.
Qed.

Lemma TrimLeftSpace_from_fixed (s : list byte) : ∀ skip : nat,
  TrimLeftSpace (TrimLeftSpace_from skip s) = TrimLeftSpace_from skip s.
Proof.
  induction s as [|b t IH]; intros skip; [reflexivity|].
  cbn [TrimLeftSpace_from]. destruct skip as [|skip]; [|apply IH].
  destruct (if utf8.byteZ b <? utf8.RuneSelf then _ else _) as [r wid] eqn:Hr.
  destruct (unicode.IsSpace r) eqn:Hs; [apply IH|].
  unfold TrimLeftSpace. cbn [TrimLeftSpace_from]. rewrite Hr, Hs. reflexivity.
Qed.

(** X4. What one call of the trim reader delivers: an end piece of what the
    underlying call delivered, which trimming leaves as it is (it is
    empty or starts with a rune that is not a space), together with the
    error of the underlying call. *)
Theorem trimReader_Read_delivers_trimmed_suffix {R : Type} `{!io.Reader R}
    (tr : trimReader.t R) (n : nat) :
  (trimReader.Read tr n).2.1 `suffix_of` (io.Read (trimReader.rd tr) n).2.1
  ∧ TrimLeftSpace (trimReader.Read tr n).2.1 = (trimReader.Read tr n).2.1
  ∧ (trimReader.Read tr n).2.2 = (io.Read (trimReader.rd tr) n).2.2.
Proof.
  rewrite trimReader_Read_trims. cbn [fst snd].
  split; [apply TrimLeftSpace_from_suffix|].
  split; [apply TrimLeftSpace_from_fixed | reflexivity].
Qed.

(** What is left of a source that has been read to its end delivers
    nothing more through the size cap. *)
Lemma ReadCalls_LimitedReader_nil (sizes : list nat) : ∀ N : Z,
  N < 2 ^ 63 →
  ReadCalls (LimitedReader.mk ([] : bytesReader.t) N) sizes = []
  ∧ ReadCalls (trimReader.mk (LimitedReader.mk ([] : bytesReader.t) N)) sizes = [].
Proof.
  induction sizes as [|n sizes IH]; intros N HN; [done|].
  cbn [ReadCalls io.Read trimReader.Reader LimitedReader.Reader].
  unfold trimReader.Read. cbn [trimReader.rd io.Read LimitedReader.Reader].
  unfold LimitedReader.Read. cbn [LimitedReader.N LimitedReader.R_].
  destruct (Z.leb_spec N 0).
  - cbn [app]. apply (IH N HN).
  - cbn [io.Read bytesReader.Reader bytesReader.Read]. change (len []) with 0.
    rewrite Z.sub_0_r, wrap64_small by lia. cbn [app]. apply (IH N HN).
Qed.

(** The bytes that pass the size cap are a beginning of the source, of
    at most [maxSize] bytes, however the reads are cut. *)
Lemma ReadCalls_LimitedReader_prefix (sizes : list nat) :
  ∀ (data : bytesReader.t) (N : Z),
    0 ≤ N < 2 ^ 63 →
    ∃ k : nat, Z.of_nat k ≤ N
               ∧ ReadCalls (LimitedReader.mk data N) sizes = take k data.
Proof.
  induction sizes as [|n sizes IH]; intros data N HN.
  - exists 0%nat. split; [lia|]. rewrite take_0. reflexivity.
  - cbn [ReadCalls io.Read LimitedReader.Reader]. unfold LimitedReader.Read.
    cbn [LimitedReader.N LimitedReader.R_].
    destruct (Z.leb_spec N 0).
    + cbn [app]. apply IH. exact HN.
    + set (n' := if Z.of_nat n >? N then Z.to_nat N else n).
      assert (Hn' : Z.of_nat n' ≤ N).
      { subst n'. destruct (Z.gtb_spec (Z.of_nat n) N); lia. }
      cbn [io.Read bytesReader.Reader]. unfold bytesReader.Read.
      destruct data as [|b data].
      * change (len []) with 0. rewrite Z.sub_0_r, wrap64_small by lia.
        cbn [app]. apply IH. exact HN.
      * set (d := b :: data) in *.
        assert (Hlen : len (take n' d) = Z.of_nat (Nat.min n' (length d))).
        { unfold len. rewrite length_take. reflexivity. }
        rewrite Hlen, wrap64_small by lia.
        destruct (IH (drop n' d) (N - Z.of_nat (n' `min` length d)) ltac:(lia))
          as (k & Hk & ->).
        destruct (Nat.le_gt_cases n' (length d)) as [Hle|Hgt].
        -- exists (n' + k)%nat. split; [lia|]. apply take_take_drop.
        -- exists (length d). split; [lia|].
           rewrite drop_ge, take_nil, app_nil_r by lia.
           rewrite !take_ge by lia. reflexivity.
Qed.

(** X5. The decoder's reader never takes more than [maxSize] bytes from the
    source: what it delivers, over any sequence of reads, is no longer
    than [maxSize]. *)
Theorem decoder_reader_respects_maxSize (data : list byte) (maxSize : Z)
    (sizes : list nat) :
  0 ≤ maxSize < 2 ^ 63 →
  len (ReadCalls (trimReader.mk (LimitReader (data : bytesReader.t) maxSize)) sizes)
    ≤ maxSize.
Proof.
  intros HN.
  destruct (ReadCalls_LimitedReader_prefix sizes data maxSize HN) as (k & Hk & Hr).
  rewrite ReadCalls_concat, ReadChunks_trimReader.
  rewrite ReadCalls_concat in Hr. unfold LimitReader.
  assert (Hle : ∀ l : list (list byte),
            (length (concat (TrimLeftSpace <$> l)) ≤ length (concat l))%nat).
  { induction l as [|c l IHl]; [done|].
    cbn [fmap list_fmap concat]. rewrite !length_app.
    pose proof (suffix_length _ _ (TrimLeftSpace_from_suffix c 0)).
    unfold TrimLeftSpace. change (list_fmap _ _ TrimLeftSpace l) with (TrimLeftSpace <$> l).
    unfold TrimLeftSpace in IHl. lia. }
  specialize (Hle (ReadChunks (LimitedReader.mk (data : bytesReader.t) maxSize) sizes)).
  rewrite Hr, length_take in Hle. unfold len. lia.
Qed.

Lemma decoder_reader_respects_maxSize_witness :
  len (ReadCalls (trimReader.mk (LimitReader (bytes_of rawPlain : bytesReader.t) 10))
                 [4; 4; 4; 4]%nat) ≤ 10.
Proof.
  apply (decoder_reader_respects_maxSize (bytes_of rawPlain) 10 [4; 4; 4; 4]%nat).
  lia.
Defined.

(** X6. A source that the first read takes whole, within the size cap,
    reaches the parser as it is without its leading whitespace: nothing
    else is dropped, and later reads deliver nothing. *)
Theorem decoder_reader_single_read (data : list byte) (maxSize : Z)
    (n : nat) (sizes : list nat) :
  (length data ≤ n)%nat → len data ≤ maxSize < 2 ^ 63 →
  ReadCalls (trimReader.mk (LimitReader (data : bytesReader.t) maxSize)) (n :: sizes)
    = TrimLeftSpace data.
Proof.
  intros Hn HN. unfold LimitReader.
  cbn [ReadCalls io.Read trimReader.Reader]. unfold trimReader.Read.
  cbn [trimReader.rd io.Read LimitedReader.Reader]. unfold LimitedReader.Read.
  cbn [LimitedReader.N LimitedReader.R_].
  destruct data as [|b data].
  - destruct (Z.leb_spec maxSize 0).
    + rewrite (proj2 (ReadCalls_LimitedReader_nil sizes maxSize ltac:(lia))).
      reflexivity.
    + cbn [io.Read bytesReader.Reader bytesReader.Read]. change (len []) with 0.
      rewrite Z.sub_0_r, wrap64_small by lia.
      rewrite (proj2 (ReadCalls_LimitedReader_nil sizes maxSize ltac:(lia))).
      reflexivity.
  - set (d := b :: data) in *.
    assert (Hpos : 0 < len d) by (subst d; unfold len; cbn [length]; lia).
    destruct (Z.leb_spec maxSize 0); [lia|].
    set (n' := if Z.of_nat n >? maxSize then Z.to_nat maxSize else n).
    assert (Hn' : (length d ≤ n')%nat).
    { subst n'. unfold len in *. destruct (Z.gtb_spec (Z.of_nat n) maxSize); lia. }
    cbn [io.Read bytesReader.Reader]. unfold bytesReader.Read.
    clearbody n'. subst d. cbv beta iota zeta. set (d := b :: data) in *.
    rewrite take_ge, drop_ge by exact Hn'.
    assert (Hw : wrap64 (maxSize - len d) < 2 ^ 63).
    { unfold len in *. rewrite wrap64_small; lia. }
    rewrite (proj2 (ReadCalls_LimitedReader_nil sizes _ Hw)).
    apply app_nil_r.
Qed.

Lemma decoder_reader_single_read_witness :
  ReadCalls (trimReader.mk (LimitReader (rawBare_after_blank_lines : bytesReader.t)
                                        DefaultEmailSize))
            [4096; 4096]%nat
    = TrimLeftSpace rawBare_after_blank_lines.
Proof.
  apply (decoder_reader_single_read rawBare_after_blank_lines DefaultEmailSize
           4096 [4096]%nat).
  - apply Nat.leb_le. vm_compute. reflexivity.
  - split; [apply Z.leb_le; vm_compute; reflexivity | reflexivity].
Defined.

End ReadersMore.

(** ** The header assembler and the Message-Id generator *)

Section AssemblerMore.

Context (env : Env) (now : time.Time).

(** X7. With a nil [Headers] map and a sender, the assembled set is made of
    the message's fields and the defaults, and of nothing else: From is
    the sender; To and Cc are the addresses joined with [", "], and are
    absent for an empty list; Subject is absent when empty; Date is the
    current time in RFC 1123 form with a numeric zone; Message-Id is the
    generated id; Mime-Version is ["1.0"]. *)
Theorem msgHeaders_derives_from_fields (e : Email.t) :
  Email.Headers e = None → Email.From e ≠ "" →
  ∃ res,
    msgHeaders env e now = inr res
    ∧ res !! from = Some [Email.From e]
    ∧ res !! to = (if 0 <? len (Email.To e)
                   then Some [String.concat ", " (Email.To e)] else None)
    ∧ res !! cc = (if 0 <? len (Email.CC e)
                   then Some [String.concat ", " (Email.CC e)] else None)
    ∧ res !! subject = (if bool_decide (Email.Subject e = "") then None
                        else Some [Email.Subject e])
    ∧ res !! date = Some [Format env now time.RFC1123Z]
    ∧ res !! msgID = Some [messageID env e now]
    ∧ res !! mimeVers = Some ["1.0"]
    ∧ ∀ k, k ∉ [from; to; cc; subject; date; msgID; mimeVers] → res !! k = None.
Proof.
  intros Hh Hf. unfold msgHeaders. rewrite Hh.
  rewrite (bool_decide_eq_false_2 (Email.From e = "")) by exact Hf.
  unfold textproto.Set_.
  assert (He : ∀ k, textproto.has ∅ k = false).
  { intros k. apply bool_decide_eq_false_2. rewrite lookup_empty.
    intros [? ?]. discriminate. }
  destruct (0 <? len (Email.To e)); destruct (0 <? len (Email.CC e));
    destruct (bool_decide (Email.Subject e = ""));
    repeat (first [ rewrite has_insert
                  | rewrite He
                  | rewrite (bool_decide_eq_false_2 (_ = _)) by done
                  | rewrite (bool_decide_eq_true_2 (_ = _)) by done ];
            cbn [negb andb orb]);
    (eexists; split; [reflexivity|]);
    repeat split;
    try (intros k Hk; repeat apply not_elem_of_cons in Hk as [? Hk];
         rewrite !lookup_insert_ne by congruence; apply lookup_empty);
    repeat (rewrite lookup_insert_eq || rewrite lookup_insert_ne by done);
    rewrite ?lookup_empty; reflexivity.
Qed.

(** X8. Without a sender and with a nil [Headers] map nothing is written:
    the encoder returns the required-field error and the count 0 and
    leaves the sink as it was, whatever the sink is. *)
Theorem WriteTo_without_sender_writes_nothing {W : Type} `{!io.Writer W}
    (e : Email.t) (w : W) :
  Email.Headers e = None → Email.From e = "" →
  WriteTo env now e w = Returns (w, (0, Some errFromEmpty)).
Proof.
  intros Hh Hf. unfold WriteTo.
  rewrite (writeTo_msgHeaders_error env now e (countWriter.mk w 0) errFromEmpty).
  - reflexivity.
  - apply msgHeaders_nil_Headers_empty_From; assumption.
Qed.

(** X9. With a [Headers] map that is not nil the assembler does not fail,
    and every field the map holds, Mime-Version apart, is in the
    assembled set with the values the map gives it. *)
Theorem msgHeaders_overrides_win (e : Email.t) (hs : MIMEHeader) :
  Email.Headers e = Some hs →
  ∃ res,
    msgHeaders env e now = inr res
    ∧ ∀ k vs, k ≠ mimeVers → hs !! k = Some vs → res !! k = Some vs.
Proof.
  intros Hh.
  destruct (msgHeaders_nonnil_Headers env now e hs Hh) as (res & Hr & H6 & _ & Ho).
  exists res. split; [exact Hr|]. intros k vs Hk Hv.
  destruct (decide (k ∈ [to; cc; from; subject; date; msgID])) as [Hin|Hnin].
  - rewrite (H6 k Hin). unfold textproto.index. rewrite Hv. reflexivity.
  - rewrite Ho; [exact Hv|].
    repeat apply not_elem_of_cons in Hnin as [? Hnin].
    rewrite !not_elem_of_cons. repeat split; try assumption.
Qed.

(** X10. The Message-Id is made from the bytes of the sender, the subject and
    the two bodies laid end to end, with nothing between them: two
    messages for which these bytes are the same get the same id, at any
    two times. *)
Theorem messageID_of_concatenation (e1 e2 : Email.t) (ts1 ts2 : time.Time) :
  bytes_of (Email.From e1) ++ bytes_of (Email.Subject e1)
    ++ Email.Text e1 ++ Email.HTML e1
  = bytes_of (Email.From e2) ++ bytes_of (Email.Subject e2)
      ++ Email.Text e2 ++ Email.HTML e2 →
  messageID env e1 ts1 = messageID env e2 ts2.
Proof.
  intros Hc. unfold messageID. cbn [app]. rewrite <- !app_assoc, Hc. reflexivity.
Qed.

End AssemblerMore.

Lemma msgHeaders_derives_from_fields_witness :
  ∃ res,
    msgHeaders exampleEnv plainMessage 0 = inr res
    ∧ res !! from = Some [Email.From plainMessage]
    ∧ res !! to = (if 0 <? len (Email.To plainMessage)
                   then Some [String.concat ", " (Email.To plainMessage)] else None)
    ∧ res !! cc = (if 0 <? len (Email.CC plainMessage)
                   then Some [String.concat ", " (Email.CC plainMessage)] else None)
    ∧ res !! subject = (if bool_decide (Email.Subject plainMessage = "") then None
                        else Some [Email.Subject plainMessage])
    ∧ res !! date = Some [Format exampleEnv 0 time.RFC1123Z]
    ∧ res !! msgID = Some [messageID exampleEnv plainMessage 0]
    ∧ res !! mimeVers = Some ["1.0"]
    ∧ ∀ k, k ∉ [from; to; cc; subject; date; msgID; mimeVers] → res !! k = None.
Proof.
  apply (msgHeaders_derives_from_fields exampleEnv 0 plainMessage).
  - reflexivity.
  - vm_compute. discriminate.
Defined.

Lemma WriteTo_without_sender_writes_nothing_witness :
  WriteTo exampleEnv 0 Email.zero (bytes_of "kept" : Buffer)
    = Returns (bytes_of "kept" : Buffer, (0, Some errFromEmpty)).
Proof.
  apply (WriteTo_without_sender_writes_nothing exampleEnv 0 Email.zero
           (bytes_of "kept" : Buffer)); reflexivity.
Defined.

Lemma msgHeaders_overrides_win_witness :
  ∃ res,
    msgHeaders exampleEnv withMailer 0 = inr res
    ∧ ∀ k vs, k ≠ mimeVers → ({["X-Mailer" := ["m"]]} : MIMEHeader) !! k = Some vs
              → res !! k = Some vs.
Proof.
  apply (msgHeaders_overrides_win exampleEnv 0 withMailer {["X-Mailer" := ["m"]]}).
  reflexivity.
Defined.

Lemma messageID_of_concatenation_witness :
  messageID exampleEnv splitAfterAB 0 = messageID exampleEnv splitAfterA 1.
Proof.
  apply (messageID_of_concatenation exampleEnv splitAfterAB splitAfterA 0 1).
  reflexivity.
Defined.

(** ** The decoder *)

Section DecoderMore.

Context (ParseMediaType : string → error + (string * gmap string string)).

Lemma foldl_classify_frame (ps : list part) : ∀ e : Email.t,
  Email.To (foldl classify e ps) = Email.To e
  ∧ Email.CC (foldl classify e ps) = Email.CC e
  ∧ Email.BCC (foldl classify e ps) = Email.BCC e
  ∧ Email.Attachments (foldl classify e ps) = Email.Attachments e.
Proof.
  induction ps as [|p ps IH]; intros e; [done|].
  cbn [foldl]. destruct (IH (classify e p)) as (-> & -> & -> & ->).
  unfold classify. repeat case_bool_decide; done.
Qed.

(** A sequence of parts that ends with an error gives no leaves,
    whatever was collected before: the loop returns an error. *)
Lemma parseMultipart_loop_error_end (s : parts) : ∀ (ps : list part) (err : error),
  parts_end s = Some err →
  ∃ err', parseMultipart_loop ParseMediaType ps s = inl err'.
Proof.
  induction s as [| e | h r rest IH]; intros ps err Hend.
  - discriminate.
  - cbn. eauto.
  - cbn [parseMultipart_loop].
    destruct (parseMIMEParts ParseMediaType h r).2 as [err'|pp]; [eauto|].
    apply (IH _ err). exact Hend.
Qed.

(** X11. A multipart body that breaks off (the reader of its parts ends with
    an error instead of the closing delimiter) is not decoded in part:
    [parseMultipart] returns an error and no leaves. *)
Theorem parseMultipart_truncated_body (content : error + list byte)
    (nextParts : string → parts) (boundary : string) (err : error) :
  parts_end (nextParts boundary) = Some err →
  ∃ err', parseMultipart ParseMediaType (Reader content nextParts) boundary
          = inl err'.
Proof.
  intros Hend. unfold parseMultipart.
  case_bool_decide; [eauto|].
  apply (parseMultipart_loop_error_end _ _ err). exact Hend.
Qed.

Section NewWithSize.
Context {R0 : Type} `{!io.Reader R0}.
Context (NewReader : trimReader.t (LimitedReader.t R0) → tpReader.t).

(** X12. A message whose Content-Type is a multipart type without a
    boundary parameter, or with an empty one, is refused with
    [ErrMissingBoundary]. *)
Theorem decode_multipart_needs_boundary (r : R0) (maxSize : Z)
    (hdrs : MIMEHeader) (v : string) (vs : list string)
    (mtyp : string) (params : gmap string string) :
  tpReader.ReadMIMEHeader (NewReader (trimReader.mk (LimitReader r maxSize)))
    = inr hdrs →
  hdrs !! contentType = Some (v :: vs) →
  ParseMediaType v = inr (mtyp, params) →
  String.prefix "multipart/" mtyp = true →
  default "" (params !! "boundary") = "" →
  NewWithSize ParseMediaType NewReader r maxSize = inl ErrMissingBoundary.
Proof.
  intros Hh Hct Hpmt Hpre Hb. unfold NewWithSize. cbv zeta. rewrite Hh.
  cbn [foldl].
  set (kept := delete bcc (delete cc (delete to (delete subject hdrs)))).
  assert (Hk : kept !! contentType = Some (v :: vs)).
  { subst kept. rewrite !lookup_delete_ne by done. exact Hct. }
  destruct (tpReader.R _) as [content nextParts].
  cbn [parseMIMEParts]. unfold parseMediaType.
  assert (Hhas : textproto.has kept contentType = true).
  { apply bool_decide_eq_true_2. rewrite Hk. eauto. }
  rewrite Hhas. cbn [negb].
  assert (Hget : textproto.Get kept contentType = v).
  { unfold textproto.Get, textproto.index. rewrite Hk. reflexivity. }
  rewrite Hget, Hpmt, Hpre, Hb.
  rewrite bool_decide_eq_true_2 by reflexivity. reflexivity.
Qed.

(** X13. The fields of a decoded message: the sender and the subject are
    the first value of their field (empty when the field is absent),
    To, Cc and Bcc are all the values of theirs, and there are no
    attachments, whatever parts the message had. *)
Theorem decode_fields (r : R0) (maxSize : Z) (hdrs : MIMEHeader) (e : Email.t) :
  tpReader.ReadMIMEHeader (NewReader (trimReader.mk (LimitReader r maxSize)))
    = inr hdrs →
  NewWithSize ParseMediaType NewReader r maxSize = inr e →
  Email.From e = textproto.Get hdrs from
  ∧ Email.Subject e = textproto.Get hdrs subject
  ∧ Email.To e = textproto.index hdrs to
  ∧ Email.CC e = textproto.index hdrs cc
  ∧ Email.BCC e = textproto.index hdrs bcc
  ∧ Email.Attachments e = [].
Proof.
  intros Hh Hd. apply NewWithSize_inr in Hd. cbv zeta in Hd.
  destruct Hd as (hdrs' & ps & Hh' & _ & ->).
  rewrite Hh in Hh'. injection Hh' as <-.
  match goal with
  | |- context [foldl classify ?e0 ps] =>
    destruct (foldl_classify_Headers ps e0) as (_ & -> & ->);
    destruct (foldl_classify_frame ps e0) as (-> & -> & -> & ->)
  end.
  done.
Qed.

(** X14. Encoding what was decoded: the header set assembled for a decoded
    message holds To, Cc and Subject without a value, although the
    message has them in its fields, and holds for From, Date and
    Message-Id exactly the values of the input. *)
Theorem decoded_message_assembles_without_To (env : Env) (now : time.Time)
    (r : R0) (maxSize : Z) (hdrs : MIMEHeader) (e : Email.t) :
  tpReader.ReadMIMEHeader (NewReader (trimReader.mk (LimitReader r maxSize)))
    = inr hdrs →
  NewWithSize ParseMediaType NewReader r maxSize = inr e →
  ∃ res,
    msgHeaders env e now = inr res
    ∧ res !! to = Some [] ∧ res !! cc = Some [] ∧ res !! subject = Some []
    ∧ res !! from = Some (textproto.index hdrs from)
    ∧ res !! date = Some (textproto.index hdrs date)
    ∧ res !! msgID = Some (textproto.index hdrs msgID).
Proof.
  intros Hh Hd.
  destruct (NewWithSize_Headers ParseMediaType NewReader r maxSize e hdrs Hh Hd)
    as (h & Hhe & Hs & Ht & Hc & _ & Hf & _ & Ho).
  destruct (msgHeaders_nonnil_Headers env now e h Hhe) as (res & Hr & H6 & _).
  exists res. split; [exact Hr|].
  rewrite !H6 by (rewrite !elem_of_cons; auto 10).
  unfold textproto.index. rewrite Hs, Ht, Hc, Hf.
  rewrite (Ho date), (Ho msgID)
    by (rewrite !not_elem_of_cons; repeat split; try done; apply not_elem_of_nil).
  done.
Qed.

End NewWithSize.

End DecoderMore.

Lemma parseMultipart_truncated_body_witness :
  ∃ err', parseMultipart ParseMediaType_examples
            (Reader (inr []) truncatedParts) "b" = inl err'.
Proof.
  apply (parseMultipart_truncated_body ParseMediaType_examples (inr [])
           truncatedParts "b" (ErrLib "multipart: NextPart: EOF")).
  reflexivity.
Defined.

Lemma decode_multipart_needs_boundary_witness :
  NewWithSize ParseMediaType_bare_multipart (λ _, bareMultipartReader)
              (bytes_of "x" : bytesReader.t) DefaultEmailSize
    = inl ErrMissingBoundary.
Proof.
  apply (decode_multipart_needs_boundary ParseMediaType_bare_multipart
           (λ _, bareMultipartReader) (bytes_of "x" : bytesReader.t) DefaultEmailSize
           bareMultipartHeader "multipart/mixed" [] "multipart/mixed" ∅);
    vm_compute; reflexivity.
Defined.

Lemma decode_fields_witness :
  Email.From signedEmail = textproto.Get signedHeader from
  ∧ Email.Subject signedEmail = textproto.Get signedHeader subject
  ∧ Email.To signedEmail = textproto.index signedHeader to
  ∧ Email.CC signedEmail = textproto.index signedHeader cc
  ∧ Email.BCC signedEmail = textproto.index signedHeader bcc
  ∧ Email.Attachments signedEmail = [].
Proof.
  apply (decode_fields ParseMediaType_examples exampleNewReader
           (bytes_of rawSigned : bytesReader.t) DefaultEmailSize
           signedHeader signedEmail);
    vm_compute; reflexivity.
Defined.

Lemma decoded_message_assembles_without_To_witness :
  ∃ res,
    msgHeaders exampleEnv signedEmail 0 = inr res
    ∧ res !! to = Some [] ∧ res !! cc = Some [] ∧ res !! subject = Some []
    ∧ res !! from = Some (textproto.index signedHeader from)
    ∧ res !! date = Some (textproto.index signedHeader date)
    ∧ res !! msgID = Some (textproto.index signedHeader msgID).
Proof.
  apply (decoded_message_assembles_without_To ParseMediaType_examples exampleNewReader
           exampleEnv 0 (bytes_of rawSigned : bytesReader.t) DefaultEmailSize
           signedHeader signedEmail);
    vm_compute; reflexivity.
Defined.

(** ** Attachments *)

Section AttachMore.

Context (lk : Lookup).

(** X15. [Attach] fails in one situation only: no content type was given,
    the source can seek, the extension of the file name has no known
    type, and the first read of the sniffer or, after it, the seek to the
    start returns an error; that error is returned, the message is as it
    was and the source has been closed.  In every other case the source
    is left open and the message has one more attachment, after those it
    had, with the file name as its name and the source as its body, as
    the call leaves it; nothing else of the message changes. *)
Theorem Attach_outcome (e : Email.t) (rc : source) (filename ct : string) :
  match Attach lk e rc filename ct with
  | (e', Some err, closed) =>
    e' = e ∧ closed = true ∧ ct = "" ∧ TypeByExtension lk filename = ""
    ∧ ∃ rs,
        rc = Seeker rs
        ∧ ((Read512 rs).2 = Some err
           ∨ ((Read512 rs).2 = None ∧ Seek0 rs = Some err))
  | (e', None, closed) =>
    closed = false
    ∧ (∃ a, Email.Attachments e' = Email.Attachments e ++ [a]
            ∧ Attachment.Name a = filename
            ∧ Attachment.Body a
              = match rc with
                | Seeker rs =>
                  Some (if bool_decide (ct = "")
                           && bool_decide (TypeByExtension lk filename = "")
                        then rewound rs else unread rs)
                | Stream body => Some body
                | NoSource => None
                end)
    ∧ Email.set_Attachments e' (Email.Attachments e) = e
    ∧ (ct ≠ "" ∨ TypeByExtension lk filename ≠ ""
       ∨ ∀ rs, rc = Seeker rs → (Read512 rs).2 = None ∧ Seek0 rs = None)
  end.
Proof.
  assert (Hset : ∀ a, Email.set_Attachments
                        (Email.set_Attachments e (Email.Attachments e ++ [a]))
                        (Email.Attachments e) = e).
  { intros a. destruct e. reflexivity. }
  unfold Attach. case_bool_decide as Hct; cbn [andb].
  - destruct rc as [rs|body|].
    + unfold sniffType. case_bool_decide as Hext; cbn [negb].
      * destruct (Read512 rs) as [buf [err|]] eqn:Hr; cbn [snd].
        -- repeat split; try done. exists rs. split; [reflexivity|].
           left. rewrite Hr. reflexivity.
        -- destruct (Seek0 rs) as [err|] eqn:Hs.
           ++ repeat split; try done. exists rs. split; [reflexivity|].
              right. rewrite Hr. done.
           ++ split; [reflexivity|]. split.
              { eexists. split; [reflexivity|]. split; reflexivity. }
              split; [apply Hset|]. right. right.
              intros rs' [= <-]. rewrite Hr. done.
      * split; [reflexivity|]. split.
        { eexists. split; [reflexivity|]. split; reflexivity. }
        split; [apply Hset|]. right. left. exact Hext.
    + split; [reflexivity|]. split.
      { eexists. split; [reflexivity|]. split; reflexivity. }
      split; [apply Hset|]. right. right. intros rs' [=].
    + split; [reflexivity|]. split.
      { eexists. split; [reflexivity|]. split; reflexivity. }
      split; [apply Hset|]. right. right. intros rs' [=].
  - split; [reflexivity|]. split.
    { eexists. split; [reflexivity|]. split; [reflexivity|].
      destruct rc; reflexivity. }
    split; [apply Hset|]. left. exact Hct.
Qed.

(** X16. The header of an attachment has no Content-Type field: the
    content type is stored under a key that is the content type itself
    (the one given; for a source that cannot seek,
    ["application/octet-stream"]; for one that can, the type of the file
    name's extension when it has one, and what [DetectContentType] makes
    of the bytes of the first read otherwise).  The other fields are
    Content-Transfer-Encoding, Content-ID and Content-Disposition, each
    unless the content type is its name. *)
Theorem Attach_content_type (e e' : Email.t) (rc : source) (filename ct : string)
    (closed : bool) :
  Attach lk e rc filename ct = (e', None, closed) →
  let T :=
    if bool_decide (ct = "") then
      match rc with
      | Seeker rs =>
        if bool_decide (TypeByExtension lk filename = "")
        then DetectContentType lk (Read512 rs).1
        else TypeByExtension lk filename
      | Stream _ | NoSource => "application/octet-stream"
      end
    else ct in
  ∃ a, last (Email.Attachments e') = Some a
       ∧ Attachment.Header a !! T = Some [T]
       ∧ dom (Attachment.Header a)
         = {[T; contentXferEncoding; contentID; contentDispo]}
       ∧ (T ≠ contentType → Attachment.Header a !! contentType = None)
       ∧ (T ≠ contentXferEncoding →
          Attachment.Header a !! contentXferEncoding = Some ["base64"])
       ∧ (T ≠ contentID →
          Attachment.Header a !! contentID = Some ["<" ++ filename ++ ">"]%string)
       ∧ (T ≠ contentDispo →
          Attachment.Header a !! contentDispo
          = Some ["attachment;\r\n filename=" ++ quote ++ filename ++ quote]%string).
Proof.
  cbv zeta. unfold Attach.
  assert (Hok : ∀ T T' body,
    T = T' →
    (Email.set_Attachments e
       (Email.Attachments e ++
        [Attachment.mk filename
           (<[T := [T]]>
            (<[contentXferEncoding := ["base64"]]>
             (<[contentID := ["<" ++ filename ++ ">"]%string]>
              (<[contentDispo := ["attachment;\r\n filename=" ++ quote ++ filename ++ quote]%string]>
               ∅))))
           body]), @None error, false) = (e', None, closed) →
    ∃ a, last (Email.Attachments e') = Some a
         ∧ Attachment.Header a !! T' = Some [T']
         ∧ dom (Attachment.Header a)
           = {[T'; contentXferEncoding; contentID; contentDispo]}
         ∧ (T' ≠ contentType → Attachment.Header a !! contentType = None)
         ∧ (T' ≠ contentXferEncoding →
            Attachment.Header a !! contentXferEncoding = Some ["base64"])
         ∧ (T' ≠ contentID →
            Attachment.Header a !! contentID = Some ["<" ++ filename ++ ">"]%string)
         ∧ (T' ≠ contentDispo →
            Attachment.Header a !! contentDispo
            = Some ["attachment;\r\n filename=" ++ quote ++ filename ++ quote]%string)).
  { intros T T' body <- [= <- _]. destruct e.
    cbn [Email.Attachments Email.set_Attachments].
    eexists. split; [apply last_snoc|]. cbn [Attachment.Header].
    split; [apply lookup_insert_eq|].
    split; [rewrite !dom_insert_L, dom_empty_L, (right_id_L ∅ (∪)), !(assoc_L (∪)); reflexivity|].
    split; [intros HT; rewrite lookup_insert_ne by done; reflexivity|].
    split; [intros HT; rewrite lookup_insert_ne by done; reflexivity|].
    split; [intros HT; rewrite lookup_insert_ne by done; reflexivity|].
    intros HT; rewrite lookup_insert_ne by done; reflexivity. }
  case_bool_decide as Hct; [|apply Hok; reflexivity].
  destruct rc as [rs|body|]; [|apply Hok; reflexivity|apply Hok; reflexivity].
  unfold sniffType. case_bool_decide as Hext; cbn [negb]; [|apply Hok; reflexivity].
  destruct (Read512 rs) as [buf [err|]]; [discriminate|].
  destruct (Seek0 rs) as [err|]; [discriminate|]. apply Hok. reflexivity.
Qed.

(** X17. Attaching an empty file whose extension is unknown fails with
    [io.EOF]: the first read of the sniffer meets the end of the file.
    The message is as it was and the file has been closed. *)
Theorem AttachFile_empty_file (Open : string → error + ReadSeeker)
    (e : Email.t) (filename : string) (seekErr : option error) :
  Open filename = inr (regularFile [] seekErr) →
  TypeByExtension lk filename = "" →
  AttachFile lk Open e filename = (e, Some EOF, true).
Proof.
  intros Ho He. unfold AttachFile, Attach, sniffType. rewrite Ho, He. reflexivity.
Qed.

End AttachMore.

(** X18. [Close] closes the bodies in the order of the attachments and stops at
    the first one that fails: the bodies it has closed are a beginning of
    the list; without an error they are all of it; with an error, the
    error is that of the last body closed, those before it closed without
    one, and those after it are left open.  The call panics when it comes
    to a nil body, after closing those before it without an error. *)
Theorem Close_stops_at_first_error (closeBody : Attachment.t → option error)
    (e : Email.t) :
  match Close closeBody e with
  | Returns (closed, r) =>
    closed `prefix_of` Email.Attachments e
    ∧ Forall (λ a, Attachment.Body a ≠ None) closed
    ∧ match r with
      | None =>
        closed = Email.Attachments e
        ∧ Forall (λ a, closeBody a = None) (Email.Attachments e)
      | Some err =>
        ∃ pre a, closed = pre ++ [a]
                 ∧ Forall (λ a, closeBody a = None) pre
                 ∧ closeBody a = Some err
      end
  | Panics =>
    ∃ pre a post, Email.Attachments e = pre ++ a :: post
                  ∧ Forall (λ a, Attachment.Body a ≠ None ∧ closeBody a = None) pre
                  ∧ Attachment.Body a = None
  | OutOfFuel => False
  end.
Proof.
  unfold Close. induction (Email.Attachments e) as [|a atts IH].
  - cbn. split; [done|]. split; [constructor|]. split; [reflexivity|constructor].
  - cbn [Close_loop]. destruct (Attachment.Body a) as [body|] eqn:Hb.
    + assert (Hb' : Attachment.Body a ≠ None) by (rewrite Hb; discriminate).
      destruct (closeBody a) as [err|] eqn:Ha.
      * split; [apply prefix_cons, prefix_nil|].
        split; [constructor; [exact Hb'|constructor]|].
        exists [], a. split; [reflexivity|]. split; [constructor|exact Ha].
      * destruct (Close_loop closeBody atts) as [[closed r]| |].
        -- destruct IH as (Hp & Hnn & IH). split; [apply prefix_cons, Hp|].
           split; [constructor; assumption|].
           destruct r as [err|].
           ++ destruct IH as (pre & a' & -> & Hpre & Ha').
              exists (a :: pre), a'. split; [reflexivity|].
              split; [constructor; assumption | exact Ha'].
           ++ destruct IH as [-> Hall]. split; [reflexivity|].
              constructor; assumption.
        -- destruct IH as (pre & a' & post & -> & Hpre & Ha').
           exists (a :: pre), a', post. split; [reflexivity|].
           split; [constructor; [split; assumption|assumption]|exact Ha'].
        -- exact IH.
    + exists [], a, atts. split; [reflexivity|]. split; [constructor|exact Hb].
Qed.

Lemma Attach_content_type_witness :
  let T :=
    if bool_decide ("" = "") then
      match Seeker (regularFile [bytes_of "%PDF-1.4 ..."] None) with
      | Seeker rs =>
        if bool_decide (TypeByExtension exampleLookup "report" = "")
        then DetectContentType exampleLookup (Read512 rs).1
        else TypeByExtension exampleLookup "report"
      | Stream _ | NoSource => "application/octet-stream"
      end
    else "" in
  ∃ a, last (Email.Attachments
               (Attach exampleLookup plainMessage
                       (Seeker (regularFile [bytes_of "%PDF-1.4 ..."] None))
                       "report" "").1.1)
       = Some a
       ∧ Attachment.Header a !! T = Some [T]
       ∧ dom (Attachment.Header a)
         = {[T; contentXferEncoding; contentID; contentDispo]}
       ∧ (T ≠ contentType → Attachment.Header a !! contentType = None)
       ∧ (T ≠ contentXferEncoding →
          Attachment.Header a !! contentXferEncoding = Some ["base64"])
       ∧ (T ≠ contentID →
          Attachment.Header a !! contentID = Some ["<" ++ "report" ++ ">"]%string)
       ∧ (T ≠ contentDispo →
          Attachment.Header a !! contentDispo
          = Some ["attachment;\r\n filename=" ++ quote ++ "report" ++ quote]%string).
Proof.
  apply (Attach_content_type exampleLookup plainMessage _
           (Seeker (regularFile [bytes_of "%PDF-1.4 ..."] None)) "report" "" false).
  reflexivity.
Defined.

Lemma AttachFile_empty_file_witness :
  AttachFile exampleLookup (λ _, inr (regularFile [] None)) plainMessage "empty.bin"
    = (plainMessage, Some EOF, true).
Proof.
  apply (AttachFile_empty_file exampleLookup (λ _, inr (regularFile [] None))
           plainMessage "empty.bin" None); reflexivity.
Defined.

(** ** Encoding into a buffer *)

Section Accepting.

Context {W : Type} `{!io.Writer W} (ok : W → Prop).
Context (ok_Write : ∀ w p, ok w → ∃ w', io.Write w p = (w', (len p, None)) ∧ ok w').
Context (ok_WriteString :
           ∀ w s, ok w → ∃ w' k, io.WriteString w s = (w', (k, None)) ∧ ok w').

(** Over a writer that accepts every write, the loop of the chunk
    writer returns, without an error, and keeps its column below 76. *)
Lemma Write_loop_accepting (fuel : nat) :
  ∀ (c : chunkWriter.t W) (p : list byte) (cnt : Z),
    (length p ≤ fuel)%nat → ok (chunkWriter.w c) → 0 ≤ chunkWriter.n c < 76 →
    ∃ c' cnt',
      chunkWriter.Write_loop fuel c p cnt = Returns (c', (cnt', None))
      ∧ ok (chunkWriter.w c') ∧ 0 ≤ chunkWriter.n c' < 76
      ∧ chunkWriter.err c' = chunkWriter.err c.
Proof.
  induction fuel as [|fuel IH]; intros c p cnt Hf Hok Hn.
  - destruct p; [|simpl in Hf; lia]. exists c, cnt. done.
  - destruct p as [|b p0]; [exists c, cnt; done|].
    set (p := b :: p0) in *.
    assert (Hp : (0 < length p)%nat) by (subst p; simpl; lia).
    destruct c as [w0 n0 e0]. cbn [chunkWriter.w chunkWriter.n chunkWriter.err] in *.
    set (k := Z.to_nat n0).
    set (m := Nat.min (76 - k) (length p)).
    assert (Hm0 : (0 < m)%nat) by (subst m k; lia).
    assert (Hm1 : (m ≤ length p)%nat) by (subst m; lia).
    assert (Hm2 : (k + m ≤ 76)%nat) by (subst m k; lia).
    assert (Hmz :
      (let m := wrap64 (maxLineLength - n0) in
       let m := if m =? 0 then maxLineLength else m in
       if m >? len p then len p else m) = Z.of_nat m).
    { cbv zeta. unfold maxLineLength. rewrite wrap64_small by lia.
      destruct (Z.eqb_spec (76 - n0) 0); [lia|].
      unfold len. destruct (Z.gtb_spec (76 - n0) (Z.of_nat (length p))); subst m k; lia. }
    destruct (ok_Write w0 (take m p) Hok) as (w1 & Hw1 & Hok1).
    assert (Hlen : len (take m p) = Z.of_nat m).
    { unfold len. rewrite length_take. lia. }
    rewrite Hlen in Hw1.
    assert (Hw : wrap64 (n0 + Z.of_nat m) = Z.of_nat (k + m)).
    { rewrite wrap64_small; subst k; lia. }
    assert (Hb : (len p <? Z.of_nat m) = false).
    { unfold len. apply Z.ltb_ge. lia. }
    assert (Hb0 : (Z.of_nat m <? 0) = false) by (apply Z.ltb_ge; lia).
    assert (Hd : (length (drop m p) ≤ fuel)%nat).
    { rewrite length_drop. subst p. simpl in *. lia. }
    subst p. unfold chunkWriter.Write_loop; fold (@chunkWriter.Write_loop W _).
    set (p := b :: p0) in *. cbv zeta in Hmz. cbv zeta.
    cbn [chunkWriter.w chunkWriter.n chunkWriter.err]. rewrite Hmz, Hb0.
    rewrite Nat2Z.id, Hw1. cbn [chunkWriter.w chunkWriter.n chunkWriter.err].
    rewrite Hw. unfold maxLineLength.
    destruct (Z.eqb_spec (Z.of_nat (k + m)) 76) as [E|E].
    + destruct (ok_WriteString w1 lineEnding Hok1) as (w2 & k2 & Hw2 & Hok2).
      rewrite Hw2, Hb0, Hb, Nat2Z.id. cbn [orb].
      destruct (IH (chunkWriter.mk w2 0 e0) (drop m p) (wrap64 (cnt + Z.of_nat m))
                   Hd Hok2 ltac:(cbn; lia)) as (c' & cnt' & Hrun & Hres).
      exists c', cnt'. split; [exact Hrun | exact Hres].
    + rewrite Hb0, Hb, Nat2Z.id. cbn [orb].
      destruct (IH (chunkWriter.mk w1 (Z.of_nat (k + m)) e0) (drop m p)
                   (wrap64 (cnt + Z.of_nat m)) Hd Hok1 ltac:(cbn; lia))
        as (c' & cnt' & Hrun & Hres).
      exists c', cnt'. split; [exact Hrun | exact Hres].
Qed.

Lemma Write_accepting (c : chunkWriter.t W) (p : list byte) :
  chunkWriter.err c = None → ok (chunkWriter.w c) → 0 ≤ chunkWriter.n c < 76 →
  ∃ c' cnt',
    chunkWriter.Write c p = Returns (c', (cnt', None))
    ∧ ok (chunkWriter.w c') ∧ 0 ≤ chunkWriter.n c' < 76
    ∧ chunkWriter.err c' = None.
Proof.
  intros He Hok Hn. unfold chunkWriter.Write. rewrite He.
  destruct (Write_loop_accepting (length p) c p 0 (le_n _) Hok Hn)
    as (c' & cnt' & Hrun & Hok' & Hn' & He').
  exists c', cnt'. rewrite He' , He. done.
Qed.

(** The base64 encoder on top of it does not fail either. *)
Lemma base64_Write_accepting (enc : base64.encoder) (c : chunkWriter.t W)
    (p : list byte) :
  base64.err enc = None →
  chunkWriter.err c = None → ok (chunkWriter.w c) → 0 ≤ chunkWriter.n c < 76 →
  ∃ enc' c',
    base64.Write enc c p = Returns (enc', c', (len p, None))
    ∧ base64.err enc' = None
    ∧ chunkWriter.err c' = None ∧ ok (chunkWriter.w c') ∧ 0 ≤ chunkWriter.n c' < 76.
Proof.
  intros Hee He Hok Hn. unfold base64.Write. rewrite Hee.
  destruct (_ =? 0)%nat.
  - eexists _, c. split; [reflexivity|]. done.
  - destruct (Write_accepting c (base64.Encode (take (length (base64.buf enc ++ p) / 3 * 3)
                                                    (base64.buf enc ++ p))) He Hok Hn)
      as (c' & cnt' & -> & Hok' & Hn' & He').
    eexists _, c'. split; [reflexivity|]. done.
Qed.

Lemma base64_Close_accepting (enc : base64.encoder) (c : chunkWriter.t W) :
  base64.err enc = None →
  chunkWriter.err c = None → ok (chunkWriter.w c) → 0 ≤ chunkWriter.n c < 76 →
  ∃ enc' c',
    base64.Close enc c = Returns (enc', c', None)
    ∧ chunkWriter.err c' = None ∧ ok (chunkWriter.w c') ∧ 0 ≤ chunkWriter.n c' < 76.
Proof.
  intros Hee He Hok Hn. unfold base64.Close. rewrite Hee.
  destruct (base64.buf enc) as [|b rest] eqn:Hbuf.
  - exists enc, c. done.
  - destruct (Write_accepting c (base64.Encode (b :: rest)) He Hok Hn)
      as (c' & cnt' & -> & Hok' & Hn' & He').
    eexists _, c'. split; [reflexivity|]. done.
Qed.

End Accepting.

Section EncoderOnBuffer.

Context (env : Env) (now : time.Time).

(** The count writer over a buffer, and a part written through it. *)
Abbreviation W1 := (countWriter.t Buffer).
Abbreviation W2 := (multipart.partWriter (countWriter.t Buffer)).

Lemma W1_Write (w : W1) (p : list byte) :
  ∃ w', io.Write w p = (w', (len p, None)) ∧ True.
Proof. destruct w. eexists. split; [reflexivity|exact I]. Qed.

Lemma W1_WriteString (w : W1) (s : string) :
  ∃ w' k, io.WriteString w s = (w', (k, None)) ∧ True.
Proof. destruct w. eexists _, _. split; [reflexivity|exact I]. Qed.

Lemma W2_Write (pw : W2) (p : list byte) :
  part_open pw → ∃ pw', io.Write pw p = (pw', (len p, None)) ∧ part_open pw'.
Proof.
  unfold part_open. intros Ho. destruct pw as [mw [b k]].
  cbn [io.Write multipart.partWriter_Writer]. unfold multipart.part_Write.
  cbn [multipart.mw_ multipart.sink] in *. rewrite Ho.
  cbn [multipart.closed io.Write countWriter.Writer countWriter.Write
       Buffer_Writer countWriter.w countWriter.n].
  eexists. split; [reflexivity|]. reflexivity.
Qed.

Lemma W2_WriteString (pw : W2) (s : string) :
  part_open pw → ∃ pw' k, io.WriteString pw s = (pw', (k, None)) ∧ part_open pw'.
Proof.
  intros Ho. cbn [io.WriteString multipart.partWriter_Writer].
  destruct (W2_Write pw (bytes_of s) Ho) as (pw' & Hw & Ho').
  cbn [io.Write multipart.partWriter_Writer] in Hw. eauto.
Qed.

Lemma CreatePart_Buffer (mw : multipart.Writer) (w : W1) (header : MIMEHeader) :
  no_part_error mw →
  ∃ w', multipart.CreatePart mw w header
        = (multipart.mk (multipart.boundary mw)
                        (Some (multipart.mkPart false None)), w', None).
Proof.
  unfold no_part_error, multipart.CreatePart. intros Hn. destruct w as [b k].
  destruct (multipart.lastpart mw) as [p|]; [rewrite Hn|];
    cbn [io.Write countWriter.Writer countWriter.Write Buffer_Writer
         countWriter.w countWriter.n];
    rewrite bool_decide_eq_true_2 by reflexivity; eexists; reflexivity.
Qed.

Lemma multipart_Close_Buffer (mw : multipart.Writer) (w : W1) :
  no_part_error mw →
  ∃ w', multipart.Close mw w = (multipart.mk (multipart.boundary mw) None, w', None).
Proof.
  unfold no_part_error, multipart.Close. intros Hn. destruct w as [b k].
  destruct (multipart.lastpart mw) as [p|]; [rewrite Hn|];
    cbn [io.Write countWriter.Writer countWriter.Write Buffer_Writer
         countWriter.w countWriter.n];
    eexists; reflexivity.
Qed.

Lemma writeBody_Buffer (w : W1) (sw : multipart.Writer) (header : MIMEHeader)
    (content : list byte) (ctype : string) :
  no_part_error sw →
  ∃ w' sw' header',
    writeBody env w sw header content ctype = (w', sw', header', None)
    ∧ no_part_error sw'.
Proof.
  intros Hn. unfold writeBody. destruct (len content =? 0).
  - eexists _, _, _. split; [reflexivity|exact Hn].
  - match goal with
    | |- context [multipart.CreatePart sw w ?h] =>
      destruct (CreatePart_Buffer sw w h Hn) as [w' ->]
    end.
    destruct w' as [b k].
    cbn [io.Write countWriter.Writer countWriter.Write Buffer_Writer
         countWriter.w countWriter.n].
    eexists _, _, _. split; [reflexivity|]. reflexivity.
Qed.

(** [io.Copy] into the encoder delivers every read and ends with the
    error that ends the reads. *)
Lemma Copy_Buffer (rds : list (list byte)) (final : option error) :
  ∀ (enc : base64.encoder) (cw : chunkWriter.t W2),
    base64.err enc = None → chunkWriter.err cw = None →
    part_open (chunkWriter.w cw) → 0 ≤ chunkWriter.n cw < 76 →
    ∃ enc' cw',
      Copy enc cw rds final = Returns (enc', cw', final)
      ∧ base64.err enc' = None ∧ chunkWriter.err cw' = None
      ∧ part_open (chunkWriter.w cw') ∧ 0 ≤ chunkWriter.n cw' < 76.
Proof.
  induction rds as [|p rds IH]; intros enc cw Hee He Ho Hn.
  - exists enc, cw. done.
  - cbn [Copy]. destruct (0 <? len p); [|apply IH; assumption].
    destruct (base64_Write_accepting part_open W2_Write W2_WriteString enc cw
                p Hee He Ho Hn) as (enc' & cw' & -> & Hee' & He' & Ho' & Hn').
    assert (Hlen : 0 ≤ len p) by (unfold len; lia).
    rewrite (proj2 (Z.ltb_ge (len p) 0)) by exact Hlen.
    rewrite Z.ltb_irrefl, Z.eqb_refl. cbn [orb negb].
    apply IH; assumption.
Qed.

(** The loop over the attachments, over a buffer: it stops at the first
    body that is nil, where it panics, or whose reads end with an error,
    which it returns; the bodies before it have been copied. *)
Lemma writeAttachments_Buffer (atts : list Attachment.t) :
  ∀ (cw : chunkWriter.t W2) (enc : base64.encoder),
    chunkWriter.err cw = None → 0 ≤ chunkWriter.n cw < 76 →
    no_part_error (multipart.mw_ (chunkWriter.w cw)) →
    base64.err enc = None →
    match writeAttachments cw enc atts with
    | Returns (cw', enc', None) =>
      Forall reads_to_end atts
      ∧ chunkWriter.err cw' = None ∧ 0 ≤ chunkWriter.n cw' < 76
      ∧ base64.err enc' = None
      ∧ (part_open (chunkWriter.w cw) ∨ atts ≠ [] → part_open (chunkWriter.w cw'))
    | Returns (cw', enc', Some err) =>
      ∃ pre a body post,
        atts = pre ++ a :: post ∧ Forall reads_to_end pre
        ∧ Attachment.Body a = Some body ∧ readErr body = Some err
    | Panics =>
      ∃ pre a post,
        atts = pre ++ a :: post ∧ Forall reads_to_end pre
        ∧ Attachment.Body a = None
    | OutOfFuel => False
    end.
Proof.
  induction atts as [|a atts IH]; intros cw enc He Hn Hp Hee.
  - cbn [writeAttachments]. split; [constructor|].
    split; [exact He|]. split; [exact Hn|]. split; [exact Hee|].
    intros [?|?]; done.
  - cbn [writeAttachments].
    destruct (CreatePart_Buffer (multipart.mw_ (chunkWriter.w cw))
                (multipart.sink (chunkWriter.w cw)) (Attachment.Header a) Hp)
      as [w' ->].
    set (cw1 := chunkWriter.mk _ (chunkWriter.n cw) (chunkWriter.err cw)).
    assert (Ho1 : part_open (chunkWriter.w cw1)) by reflexivity.
    destruct (Attachment.Body a) as [body|] eqn:Hbody.
    + destruct (Copy_Buffer (reads body) (readErr body) enc cw1 Hee He Ho1 Hn)
        as (enc' & cw2 & -> & Hee' & He2 & Ho2 & Hn2).
      destruct (readErr body) as [err|] eqn:Herr.
      * exists [], a, body, atts. split; [reflexivity|]. split; [constructor|].
        split; assumption.
      * assert (Ha : reads_to_end a) by (exists body; split; assumption).
        assert (Hp2 : no_part_error (multipart.mw_ (chunkWriter.w cw2))).
        { unfold no_part_error. rewrite Ho2. reflexivity. }
        specialize (IH cw2 enc' He2 Hn2 Hp2 Hee').
        destruct (writeAttachments cw2 enc' atts) as [[[cw' enc''] [err|]]| |].
        -- destruct IH as (pre & a' & body' & post & -> & Hpre & Hb' & He').
           exists (a :: pre), a', body', post. split; [reflexivity|].
           split; [constructor; assumption|]. split; assumption.
        -- destruct IH as (Hall & He' & Hn' & Hee'' & Hopen).
           split; [constructor; assumption|].
           split; [exact He'|]. split; [exact Hn'|]. split; [exact Hee''|].
           intros _. apply Hopen. left. exact Ho2.
        -- destruct IH as (pre & a' & post & -> & Hpre & Hb').
           exists (a :: pre), a', post. split; [reflexivity|].
           split; [constructor; assumption|exact Hb'].
        -- exact IH.
    + exists [], a, atts. split; [reflexivity|]. split; [constructor|exact Hbody].
Qed.

(** When the header set can be assembled, writing the message to a
    buffer returns unless a body is nil, and fails only with the error
    that ends the reads of a body. *)
Lemma writeTo_Buffer_outcome (e : Email.t) (hdrs : MIMEHeader) (w : W1) :
  msgHeaders env e now = inr hdrs →
  match writeTo env now e w with
  | Returns (w', None) => Forall reads_to_end (Email.Attachments e)
  | Returns (w', Some err) =>
    ∃ pre a body post,
      Email.Attachments e = pre ++ a :: post ∧ Forall reads_to_end pre
      ∧ Attachment.Body a = Some body ∧ readErr body = Some err
  | Panics =>
    ∃ pre a post,
      Email.Attachments e = pre ++ a :: post ∧ Forall reads_to_end pre
      ∧ Attachment.Body a = None
  | OutOfFuel => False
  end.
Proof.
  intros Hm. unfold writeTo. rewrite Hm.
  match goal with
  | |- context [writeHeader env w ?h] =>
    destruct (writeHeader_Buffer env h w) as [X ->]
  end.
  cbn [io.WriteString io.Write countWriter.Writer countWriter.WriteString
       countWriter.Write Buffer_Writer countWriter.w countWriter.n].
  set (w1 := countWriter.mk _ _).
  set (alt := if (_ || _) then _ else _).
  assert (Halt : ∃ w2, alt = (w2, None)).
  { subst alt. destruct (_ || _); [|eauto].
    match goal with
    | |- context [writeHeader env w1 ?h] =>
      destruct (writeHeader_Buffer env h w1) as [Y ->]
    end.
    match goal with
    | |- context [writeBody env ?a ?b ?c ?d ?f] =>
      destruct (writeBody_Buffer a b c d f I) as (wa & swa & ha & -> & Hna)
    end.
    match goal with
    | |- context [writeBody env ?a ?b ?c ?d ?f] =>
      destruct (writeBody_Buffer a b c d f Hna) as (wb & swb & hb & -> & Hnb)
    end.
    destruct (multipart_Close_Buffer swb wb Hnb) as [wc ->]. eauto. }
  destruct Halt as [w2 ->].
  destruct (0 <? len (Email.Attachments e)) eqn:Hatt.
  - pose proof (writeAttachments_Buffer (Email.Attachments e)
                (chunkWriter.new
                   (multipart.mkPW (multipart.NewWriter (mixedBoundary env)) w2))
                base64.NewEncoder eq_refl ltac:(cbn; lia) I eq_refl) as Hwa.
    destruct (writeAttachments _ _ _) as [[[cw' enc'] [err|]]| |];
      [exact Hwa| |exact Hwa|exact Hwa].
    destruct Hwa as (Hall & He & Hn & Hee & Hopen).
    assert (Ho : part_open (chunkWriter.w cw')).
    { apply Hopen. right. intros Hnil. rewrite Hnil in Hatt. discriminate. }
    destruct (base64_Close_accepting part_open W2_Write W2_WriteString enc' cw'
                Hee He Ho Hn) as (enc'' & cw'' & -> & He' & Ho' & Hn').
    unfold chunkWriter.Close. rewrite He'.
    destruct (W2_WriteString (chunkWriter.w cw'') lineEnding Ho')
      as (pw & k & Hws & Hpw).
    cbn [chunkWriter.w chunkWriter.n chunkWriter.err]. rewrite Hws.
    cbn [chunkWriter.w].
    destruct (multipart_Close_Buffer (multipart.mw_ pw) (multipart.sink pw))
      as [w3 ->].
    { unfold no_part_error. rewrite Hpw. reflexivity. }
    exact Hall.
  - destruct (multipart_Close_Buffer (multipart.NewWriter (mixedBoundary env)) w2 I)
      as [w3 ->].
    destruct (Email.Attachments e); [constructor|discriminate].
Qed.

Lemma writeTo_Buffer_fuel (e : Email.t) (w : W1) :
  writeTo env now e w ≠ OutOfFuel.
Proof.
  destruct (msgHeaders env e now) as [err|hdrs] eqn:Hm.
  - unfold writeTo. rewrite Hm. discriminate.
  - pose proof (writeTo_Buffer_outcome e hdrs w Hm) as Hw.
    intros Hf. rewrite Hf in Hw. exact Hw.
Qed.


End EncoderOnBuffer.

(** ** The encoder does not look at what the sink holds *)

Section SinkChange.

Context {W W' : Type} `{!io.Writer W} `{!io.Writer W'} (φ : W → W').
Context (φ_Write : ∀ w p, io.Write (φ w) p = (φ (io.Write w p).1, (io.Write w p).2)).
Context (φ_WriteString :
           ∀ w s, io.WriteString (φ w) s
                  = (φ (io.WriteString w s).1, (io.WriteString w s).2)).

Lemma Write_loop_sink (fuel : nat) :
  ∀ (c : chunkWriter.t W) (p : list byte) (cnt : Z),
    chunkWriter.Write_loop fuel (cw_map φ c) p cnt
    = on_outcome (λ r, (cw_map φ r.1, r.2)) (chunkWriter.Write_loop fuel c p cnt).
Proof.
  induction fuel as [|fuel IH]; intros c p cnt.
  - destruct p; reflexivity.
  - destruct p as [|b p0]; [reflexivity|].
    cbn [chunkWriter.Write_loop cw_map chunkWriter.w chunkWriter.n chunkWriter.err].
    destruct (_ <? 0); [reflexivity|].
    rewrite φ_Write.
    destruct (io.Write (chunkWriter.w c) _) as [w1 [m e]]. cbn [fst snd].
    destruct e as [e|]; [reflexivity|].
    cbn [chunkWriter.w chunkWriter.n chunkWriter.err].
    destruct (_ =? maxLineLength).
    + rewrite φ_WriteString.
      destruct (io.WriteString w1 lineEnding) as [w2 [k e2]]. cbn [fst snd].
      destruct e2 as [e2|]; [reflexivity|].
      destruct (_ || _); [reflexivity|].
      apply (IH (chunkWriter.mk w2 0 (chunkWriter.err c))).
    + destruct (_ || _); [reflexivity|].
      apply (IH (chunkWriter.mk w1 _ (chunkWriter.err c))).
Qed.

Lemma chunkWriter_Write_sink (c : chunkWriter.t W) (p : list byte) :
  chunkWriter.Write (cw_map φ c) p
  = on_outcome (λ r, (cw_map φ r.1, r.2)) (chunkWriter.Write c p).
Proof.
  unfold chunkWriter.Write. cbn [cw_map chunkWriter.err].
  destruct (chunkWriter.err c); [reflexivity|]. apply Write_loop_sink.
Qed.

Lemma chunkWriter_Close_sink (c : chunkWriter.t W) :
  chunkWriter.Close (cw_map φ c)
  = (cw_map φ (chunkWriter.Close c).1, (chunkWriter.Close c).2).
Proof.
  unfold chunkWriter.Close. cbn [cw_map chunkWriter.err chunkWriter.w chunkWriter.n].
  destruct (chunkWriter.err c); [reflexivity|].
  rewrite φ_WriteString.
  destruct (io.WriteString (chunkWriter.w c) lineEnding) as [w1 [k e]]. reflexivity.
Qed.

Lemma base64_Write_sink (enc : base64.encoder) (c : chunkWriter.t W) (p : list byte) :
  base64.Write enc (cw_map φ c) p
  = on_outcome (λ r, (r.1.1, cw_map φ r.1.2, r.2)) (base64.Write enc c p).
Proof.
  unfold base64.Write. destruct (base64.err enc); [reflexivity|].
  cbv zeta. destruct (_ =? 0)%nat; [reflexivity|].
  rewrite chunkWriter_Write_sink.
  destruct (chunkWriter.Write c _) as [[c' [k [e|]]]| |]; reflexivity.
Qed.

Lemma base64_Close_sink (enc : base64.encoder) (c : chunkWriter.t W) :
  base64.Close enc (cw_map φ c)
  = on_outcome (λ r, (r.1.1, cw_map φ r.1.2, r.2)) (base64.Close enc c).
Proof.
  unfold base64.Close. destruct (base64.err enc) as [e|].
  - destruct (base64.buf enc); reflexivity.
  - destruct (base64.buf enc) as [|b rest]; [reflexivity|].
    rewrite chunkWriter_Write_sink.
    destruct (chunkWriter.Write c _) as [[c' [k e]]| |]; reflexivity.
Qed.

Lemma part_Write_sink (pw : multipart.partWriter W) (d : list byte) :
  multipart.part_Write (pw_map φ pw) d
  = (pw_map φ (multipart.part_Write pw d).1, (multipart.part_Write pw d).2).
Proof.
  unfold multipart.part_Write. cbn [pw_map multipart.mw_ multipart.sink].
  destruct (multipart.lastpart (multipart.mw_ pw)) as [p|]; [|reflexivity].
  destruct (multipart.closed p); [reflexivity|].
  rewrite φ_Write.
  destruct (io.Write (multipart.sink pw) d) as [w1 [k e]]. reflexivity.
Qed.

Lemma CreatePart_sink (mw : multipart.Writer) (w : W) (header : MIMEHeader) :
  multipart.CreatePart mw (φ w) header
  = ((multipart.CreatePart mw w header).1.1,
     φ (multipart.CreatePart mw w header).1.2,
     (multipart.CreatePart mw w header).2).
Proof.
  unfold multipart.CreatePart.
  destruct (multipart.lastpart mw) as [p|].
  - destruct (multipart.we p); [reflexivity|].
    rewrite φ_Write. destruct (io.Write w _) as [w1 [k [e|]]]; [reflexivity|].
    cbn [fst snd]. case_bool_decide; reflexivity.
  - rewrite φ_Write. destruct (io.Write w _) as [w1 [k [e|]]]; [reflexivity|].
    cbn [fst snd]. case_bool_decide; reflexivity.
Qed.

Lemma multipart_Close_sink (mw : multipart.Writer) (w : W) :
  multipart.Close mw (φ w)
  = ((multipart.Close mw w).1.1, φ (multipart.Close mw w).1.2,
     (multipart.Close mw w).2).
Proof.
  unfold multipart.Close.
  destruct (multipart.lastpart mw) as [p|].
  - destruct (multipart.we p); [reflexivity|].
    rewrite φ_Write. destruct (io.Write w _) as [w1 [k e]]. reflexivity.
  - rewrite φ_Write. destruct (io.Write w _) as [w1 [k e]]. reflexivity.
Qed.

Lemma writeHeader_sink (env : Env) (header : MIMEHeader) (w : W) :
  writeHeader env (φ w) header = φ (writeHeader env w header).
Proof.
  unfold writeHeader. generalize (map_to_list header). intros l. revert w.
  induction l as [|[field vals] l IH]; intros w; [reflexivity|].
  cbn [foldl].
  assert (Hv : foldl (λ w subval, writeHeader_value env w field subval) (φ w) vals
               = φ (foldl (λ w subval, writeHeader_value env w field subval) w vals)).
  { clear IH. revert w. induction vals as [|v vals IHv]; intros w; [reflexivity|].
    cbn [foldl]. rewrite <- IHv. f_equal.
    unfold writeHeader_value. rewrite φ_WriteString.
    destruct (io.WriteString w field) as [w1 r1]. cbn [fst snd].
    rewrite φ_WriteString.
    destruct (io.WriteString w1 ": ") as [w2 r2]. cbn [fst snd].
    destruct (_ || _); rewrite φ_WriteString;
      destruct (io.WriteString w2 _) as [w3 r3]; cbn [fst snd];
      rewrite φ_WriteString;
      destruct (io.WriteString w3 lineEnding) as [w4 r4]; reflexivity. }
  rewrite Hv. apply IH.
Qed.

Lemma writeBody_sink (env : Env) (w : W) (sw : multipart.Writer)
    (header : MIMEHeader) (content : list byte) (ctype : string) :
  writeBody env (φ w) sw header content ctype
  = (let '(w1, sw1, h1, e1) := writeBody env w sw header content ctype in
     (φ w1, sw1, h1, e1)).
Proof.
  unfold writeBody. destruct (len content =? 0); [reflexivity|].
  rewrite CreatePart_sink.
  destruct (multipart.CreatePart sw w _) as [[sw1 w1] [e|]]; [reflexivity|].
  cbn [fst snd]. rewrite φ_Write.
  destruct (io.Write w1 _) as [w2 [k e]]. reflexivity.
Qed.

End SinkChange.

Section EncoderSinkChange.

Context {W W' : Type} `{!io.Writer W} `{!io.Writer W'} (φ : W → W').
Context (φ_Write : ∀ w p, io.Write (φ w) p = (φ (io.Write w p).1, (io.Write w p).2)).
Context (φ_WriteString :
           ∀ w s, io.WriteString (φ w) s
                  = (φ (io.WriteString w s).1, (io.WriteString w s).2)).
Context (env : Env) (now : time.Time).

Lemma pw_Write_sink (pw : multipart.partWriter W) (p : list byte) :
  io.Write (pw_map φ pw) p = (pw_map φ (io.Write pw p).1, (io.Write pw p).2).
Proof. apply (part_Write_sink φ φ_Write). Qed.

Lemma pw_WriteString_sink (pw : multipart.partWriter W) (s : string) :
  io.WriteString (pw_map φ pw) s
  = (pw_map φ (io.WriteString pw s).1, (io.WriteString pw s).2).
Proof. apply (part_Write_sink φ φ_Write). Qed.

Lemma Copy_sink (rds : list (list byte)) (final : option error) :
  ∀ (enc : base64.encoder) (cw : chunkWriter.t (multipart.partWriter W)),
    Copy enc (cw_map (pw_map φ) cw) rds final
    = on_outcome (λ r, (r.1.1, cw_map (pw_map φ) r.1.2, r.2)) (Copy enc cw rds final).
Proof.
  induction rds as [|p rds IH]; intros enc cw; [reflexivity|].
  cbn [Copy]. destruct (0 <? len p); [|apply IH].
  rewrite (base64_Write_sink (pw_map φ) pw_Write_sink pw_WriteString_sink).
  destruct (base64.Write enc cw p) as [[[enc' cw'] [nw [ew|]]]| |];
    cbn [on_outcome fst snd]; try reflexivity.
  destruct (_ || _); [reflexivity|]. destruct (negb _); [reflexivity|]. apply IH.
Qed.

Lemma writeAttachments_sink (atts : list Attachment.t) :
  ∀ (cw : chunkWriter.t (multipart.partWriter W)) (enc : base64.encoder),
    writeAttachments (cw_map (pw_map φ) cw) enc atts
    = on_outcome (λ r, (cw_map (pw_map φ) r.1.1, r.1.2, r.2))
                 (writeAttachments cw enc atts).
Proof.
  induction atts as [|a atts IH]; intros cw enc; [reflexivity|].
  cbn [writeAttachments cw_map pw_map chunkWriter.w chunkWriter.n chunkWriter.err
       multipart.mw_ multipart.sink].
  rewrite (CreatePart_sink φ φ_Write).
  destruct (multipart.CreatePart _ (multipart.sink (chunkWriter.w cw)) _)
    as [[mw w1] [e|]]; cbn [fst snd]; [reflexivity|].
  destruct (Attachment.Body a) as [body|]; [|reflexivity].
  change (chunkWriter.mk (multipart.mkPW mw (φ w1)) (chunkWriter.n cw)
                         (chunkWriter.err cw))
    with (cw_map (pw_map φ)
            (chunkWriter.mk (multipart.mkPW mw w1) (chunkWriter.n cw)
                            (chunkWriter.err cw))).
  rewrite Copy_sink.
  destruct (Copy enc _ (reads body) (readErr body)) as [[[enc' cw'] [e|]]| |];
    cbn [on_outcome fst snd]; try reflexivity.
  apply IH.
Qed.

(** Writing a message commutes with a change of the sink that the
    sink's own methods commute with. *)
Lemma writeTo_sink (e : Email.t) (w : W) :
  writeTo env now e (φ w) = on_outcome (λ r, (φ r.1, r.2)) (writeTo env now e w).
Proof.
  unfold writeTo. destruct (msgHeaders env e now) as [err|hdrs]; [reflexivity|].
  cbv zeta. rewrite (writeHeader_sink φ φ_WriteString).
  rewrite φ_WriteString.
  destruct (io.WriteString (writeHeader env w _) lineEnding) as [w1 r1].
  cbn [fst snd]. rewrite φ_Write.
  destruct (io.Write w1 _) as [w2 r2]. cbn [fst snd].
  assert (Htail : ∀ (w0 : W) (e1 : option error),
    match (φ w0, e1) with
    | (w0, Some err) => Returns (w0, Some err)
    | (w0, None) =>
      match
        (if 0 <? len (Email.Attachments e) then
           match writeAttachments
                   (chunkWriter.new
                      (multipart.mkPW (multipart.NewWriter (mixedBoundary env)) w0))
                   base64.NewEncoder (Email.Attachments e) with
           | Returns (cw, enc, Some err) =>
             Returns (multipart.mw_ (chunkWriter.w cw),
                      multipart.sink (chunkWriter.w cw), Some err)
           | Returns (cw, enc, None) =>
             match base64.Close enc cw with
             | Returns (_, cw0, Some err) =>
               Returns (multipart.mw_ (chunkWriter.w cw0),
                        multipart.sink (chunkWriter.w cw0), Some err)
             | Returns (_, cw0, None) =>
               let '(cw1, e0) := chunkWriter.Close cw0 in
               Returns (multipart.mw_ (chunkWriter.w cw1),
                        multipart.sink (chunkWriter.w cw1), e0)
             | Panics => Panics
             | OutOfFuel => OutOfFuel
             end
           | Panics => Panics
           | OutOfFuel => OutOfFuel
           end
         else Returns (multipart.NewWriter (mixedBoundary env), w0, None))
      with
      | Returns (mw, w3, Some err) => Returns (w3, Some err)
      | Returns (mw, w3, None) =>
        let '(_, w5, e0) := multipart.Close mw w3 in Returns (w5, e0)
      | Panics => Panics
      | OutOfFuel => OutOfFuel
      end
    end
    = on_outcome (λ r : W * option error, (φ r.1, r.2))
        match (w0, e1) with
        | (w0, Some err) => Returns (w0, Some err)
        | (w0, None) =>
          match
            (if 0 <? len (Email.Attachments e) then
               match writeAttachments
                       (chunkWriter.new
                          (multipart.mkPW (multipart.NewWriter (mixedBoundary env)) w0))
                       base64.NewEncoder (Email.Attachments e) with
               | Returns (cw, enc, Some err) =>
                 Returns (multipart.mw_ (chunkWriter.w cw),
                          multipart.sink (chunkWriter.w cw), Some err)
               | Returns (cw, enc, None) =>
                 match base64.Close enc cw with
                 | Returns (_, cw0, Some err) =>
                   Returns (multipart.mw_ (chunkWriter.w cw0),
                            multipart.sink (chunkWriter.w cw0), Some err)
                 | Returns (_, cw0, None) =>
                   let '(cw1, e0) := chunkWriter.Close cw0 in
                   Returns (multipart.mw_ (chunkWriter.w cw1),
                            multipart.sink (chunkWriter.w cw1), e0)
                 | Panics => Panics
                 | OutOfFuel => OutOfFuel
                 end
               | Panics => Panics
               | OutOfFuel => OutOfFuel
               end
             else Returns (multipart.NewWriter (mixedBoundary env), w0, None))
          with
          | Returns (mw, w3, Some err) => Returns (w3, Some err)
          | Returns (mw, w3, None) =>
            let '(_, w5, e0) := multipart.Close mw w3 in Returns (w5, e0)
          | Panics => Panics
          | OutOfFuel => OutOfFuel
          end
        end).
  { intros w0 [err|]; [reflexivity|].
    destruct (0 <? len (Email.Attachments e)).
    - change (chunkWriter.new
                (multipart.mkPW (multipart.NewWriter (mixedBoundary env)) (φ w0)))
        with (cw_map (pw_map φ)
                (chunkWriter.new
                   (multipart.mkPW (multipart.NewWriter (mixedBoundary env)) w0))).
      rewrite writeAttachments_sink.
      destruct (writeAttachments _ _ _) as [[[cw enc] [err|]]| |];
        cbn [on_outcome fst snd]; try reflexivity.
      rewrite (base64_Close_sink (pw_map φ) pw_Write_sink pw_WriteString_sink).
      destruct (base64.Close enc cw) as [[[enc' cw'] [err|]]| |];
        cbn [on_outcome fst snd]; try reflexivity.
      rewrite (chunkWriter_Close_sink (pw_map φ) pw_WriteString_sink).
      destruct (chunkWriter.Close cw') as [cw'' [err|]];
        cbn [fst snd cw_map pw_map chunkWriter.w multipart.mw_ multipart.sink
             on_outcome]; [reflexivity|].
      rewrite (multipart_Close_sink φ φ_Write).
      destruct (multipart.Close _ _) as [[mw' w5] e5]. reflexivity.
    - rewrite (multipart_Close_sink φ φ_Write).
      destruct (multipart.Close _ _) as [[mw' w5] e5]. reflexivity. }
  destruct (_ || _); [|exact (Htail w2 None)].
  rewrite (writeHeader_sink φ φ_WriteString).
  rewrite (writeBody_sink φ φ_Write).
  destruct (writeBody env _ _ _ (Email.Text e) _) as [[[wa swa] ha] ea].
  rewrite (writeBody_sink φ φ_Write).
  destruct (writeBody env wa swa ha (Email.HTML e) _) as [[[wb swb] hb] eb].
  rewrite (multipart_Close_sink φ φ_Write).
  destruct (multipart.Close swb wb) as [[mw' wc] ec]. cbn [fst snd].
  exact (Htail wc ec).
Qed.

End EncoderSinkChange.

Section MarshalTextMore.

Context (env : Env) (now : time.Time).

Lemma prepend_Write (b0 : list byte) (c : countWriter.t Buffer) (p : list byte) :
  io.Write (prepend b0 c) p = (prepend b0 (io.Write c p).1, (io.Write c p).2).
Proof.
  destruct c as [b k]. unfold prepend.
  cbn [io.Write countWriter.Writer countWriter.Write Buffer_Writer
       countWriter.w countWriter.n fst snd].
  rewrite app_assoc. reflexivity.
Qed.

Lemma prepend_WriteString (b0 : list byte) (c : countWriter.t Buffer) (s : string) :
  io.WriteString (prepend b0 c) s
  = (prepend b0 (io.WriteString c s).1, (io.WriteString c s).2).
Proof.
  destruct c as [b k]. unfold prepend.
  cbn [io.WriteString countWriter.Writer countWriter.WriteString Buffer_Writer
       countWriter.w countWriter.n fst snd].
  rewrite app_assoc. reflexivity.
Qed.


End MarshalTextMore.
